(** * Reward tracking and cadence scheduling of the adept containers

    A shallow embedding of [adept/containers/_base.py] and
    [adept/containers/evaluation.py], and the properties of the reward
    buffers, of the evaluation loops, of the checkpoint cadence and of the
    progress log that the specification states about them.

    Conventions of the embedding.
    - A reward is a number in exact arithmetic, an integer count of the
      smallest reward unit ([Z]), which stands for the running float32
      total of a buffer slot. Where a property is about the values the
      training buffer holds and returns, and the rounding of the 32-bit
      floats decides it, the float32 arithmetic of the tensor is written
      out ([Float32], [CountsRewards32]).
    - A Python list or a one-dimensional tensor is a [list]; an index read
      is stdpp's lookup [l !! i], and what Python does out of range
      ([IndexError]) is written out.
    - An [info] dictionary is a finite map; its truth value is
      non-emptiness.
    - Mutation of [self] is explicit state passing; a method returns the
      new state together with what it returns or raises. *)

From Stdlib Require Import ZArith QArith Lia Lqa Ascii.
From Stdlib Require SpecFloat.
From stdpp Require Import base list gmap strings pretty.

Local Open Scope Z_scope.

(** ** Python values shared by the two files *)

(** The exceptions the modelled statements can raise. *)
Inductive exn : Type :=
  | IndexError
  | RuntimeError
  | ZeroDivisionError.

(** What a call does besides changing the state. *)
Inductive outcome (A : Type) : Type :=
  | Returned (a : A)
  | Raised (e : exn).
Arguments Returned {A} a.
Arguments Raised {A} e.

(** [infos[i]]: a dictionary with string keys. *)
Abbreviation Info := (gmap string Z).

(** Truth value of a dictionary in a condition: false exactly when empty. *)
Definition truthy (info : Info) : bool := bool_decide (info ≠ ∅).

(** One answer of the environment batch: what [step] returns besides the
    observations. *)
Record step : Type := mkStep {
  rewards : list Z;
  terminals : list bool;
  infos : list Info
}.

(** The condition [terminals[i] and infos[i]] of both ingest loops, false
    when either vector does not reach slot [i]. *)
Definition completing (i : nat) (c : step) : bool :=
  match terminals c !! i, infos c !! i with
  | Some true, Some info => truthy info
  | _, _ => false
  end.

(** The number of slots before slot [i] for which the condition holds: the
    place, in the lists a training-mode ingest returns, of the entry of
    slot [i] when it has one. *)
Fixpoint rank (i : nat) (c : step) : nat :=
  match i with
  | O => O
  | S j => (rank j c + (if completing j c then 1 else 0))%nat
  end.

(** The three vectors have one entry per environment. *)
Definition full (n : nat) (c : step) : Prop :=
  length (rewards c) = n ∧ length (terminals c) = n ∧ length (infos c) = n.

(** The three vectors have an entry for slot [j]. *)
Definition reaches (j : nat) (c : step) : Prop :=
  (j < length (rewards c))%nat ∧ (j < length (terminals c))%nat
  ∧ (j < length (infos c))%nat.

(** Sum of a vector. *)
Definition total (l : list Z) : Z := foldr Z.add 0 l.

(** The value of slot [i] of a vector, zero outside it. *)
Definition slot (i : nat) (l : list Z) : Z := default 0 (l !! i).


(** [torch.zeros(n)] *)
Definition zeros (n : nat) : list Z := replicate n 0.

(** [np.mean], and [mean()] of a tensor. On the empty vector both answer
    [nan]; the rationals have no such value and the model answers zero. *)
Definition mean (l : list Z) : Q :=
  (inject_Z (total l) / inject_Z (Z.of_nat (length l)))%Q.

(** Python's [a / b] on numbers: division by zero raises. *)
Definition truediv (a b : Q) : outcome Q :=
  if Qeq_bool b 0 then Raised ZeroDivisionError else Returned (a / b)%Q.

(** [all(...)] on a list of booleans. *)
Definition all (bs : list bool) : bool := forallb id bs.

(** ** [_base.py]: [CountsRewards] *)
Module CountsRewards.

(** The attributes of the mixin. [nb_env] is the abstract property, fixed
    by the owning container. *)
Record t : Type := mk {
  nb_env : nat;
  _episode_reward_buffer : option (list Z);
  _local_step_count : Z;
  _start_time : Q
}.

(** A new object: the class-level defaults; [_start_time] is the clock
    value when the class was created. *)
Definition init (n : nat) (clock : Q) : t :=
  {| nb_env := n; _episode_reward_buffer := None; _local_step_count := 0;
     _start_time := clock |}.

(** The lazy property [episode_reward_buffer]: the getter allocates the
    zero vector on first use and stores it. *)
Definition episode_reward_buffer (self : t) : list Z * t :=
  match _episode_reward_buffer self with
  | None =>
      let b := zeros (nb_env self) in
      (b, {| nb_env := nb_env self;
             _episode_reward_buffer := Some b;
             _local_step_count := _local_step_count self;
             _start_time := _start_time self |})
  | Some b => (b, self)
  end.

Definition set_episode_reward_buffer (self : t) (updated_buffer : list Z) : t :=
  {| nb_env := nb_env self;
     _episode_reward_buffer := Some updated_buffer;
     _local_step_count := _local_step_count self;
     _start_time := _start_time self |}.

Definition set_local_step_count (self : t) (step_count : Z) : t :=
  {| nb_env := nb_env self;
     _episode_reward_buffer := _episode_reward_buffer self;
     _local_step_count := step_count;
     _start_time := _start_time self |}.

(** The buffer as a reader sees it, without the allocation. *)
Definition buffer (self : t) : list Z := fst (episode_reward_buffer self).

(** [buf += torch.tensor(rewards).float()]: the in-place addition of
    torch. Equal lengths add slot by slot; a one-element right operand is
    broadcast to every slot; any other length raises. *)
Definition iadd (buf rs : list Z) : outcome (list Z) :=
  if decide (length rs = length buf) then Returned (zip_with Z.add buf rs)
  else match rs with
       | [r] => Returned ((λ b, b + r) <$> buf)
       | _ => Raised RuntimeError
       end.

(** The loop over [zip(self.episode_reward_buffer, terminals, infos)]:
    it stops with the shortest of the three; [ep_reward] is a view of the
    buffer slot, so [ep_reward.zero_()] writes the slot. Returns the
    buffer after the loop, [terminal_rewards] and [terminal_infos]. *)
Fixpoint scan (buf : list Z) (ts : list bool) (fs : list Info)
  : list Z * (list Z * list Info) :=
  match buf, ts, fs with
  | ep_reward :: buf', done :: ts', info :: fs' =>
      let '(b, (trs, tis)) := scan buf' ts' fs' in
      if done && truthy info
      then (0 :: b, (ep_reward :: trs, info :: tis))
      else (ep_reward :: b, (trs, tis))
  | _, _, _ => (buf, ([], []))
  end.

(** [update_buffers(rewards, terminals, infos)] *)
Definition update_buffers (self : t) (c : step)
  : t * outcome (list Z * list Info) :=
  let '(buf, self) := episode_reward_buffer self in
  match iadd buf (rewards c) with
  | Raised e => (self, Raised e)
  | Returned buf =>
      let self := set_episode_reward_buffer self buf in
      let self :=
        set_local_step_count self (_local_step_count self + Z.of_nat (nb_env self)) in
      let '(buf, out) := scan buf (terminals c) (infos c) in
      (set_episode_reward_buffer self buf, Returned out)
  end.

(** A sequence of calls, each on the state the previous one left. *)
Definition updates (self : t) (calls : list step) : t :=
  foldl (λ s c, fst (update_buffers s c)) self calls.

(** What the calls of such a sequence return or raise, in order. *)
Fixpoint outputs (self : t) (calls : list step)
  : list (outcome (list Z * list Info)) :=
  match calls with
  | [] => []
  | c :: calls' =>
      snd (update_buffers self c) :: outputs (fst (update_buffers self c)) calls'
  end.

(** *** Per-slot reading of what a call emits

    [terminal_rewards] does not name the slots its entries come from.
    Slot [i] completes in a call when the loop reaches it with a true
    terminal flag and a non-empty info; the entry it appends is the
    value of its slot after the addition. *)
Definition completes (i : nat) (buf : list Z) (c : step) : bool :=
  match buf !! i, terminals c !! i, infos c !! i with
  | Some _, Some done, Some info => done && truthy info
  | _, _, _ => false
  end.

(** The reward the call emits for slot [i], [None] when it emits none. *)
Definition slot_emission (i : nat) (self : t) (c : step) : option Z :=
  match iadd (buffer self) (rewards c) with
  | Raised _ => None
  | Returned buf => if completes i buf c then buf !! i else None
  end.

(** Sum of the raw rewards handed in for slot [i]. *)
Definition ingested (i : nat) (calls : list step) : Z :=
  total ((λ c, default 0 (rewards c !! i)) <$> calls).

(** The stored buffer, when there is one, has one slot per environment. *)
Definition wf (self : t) : Prop :=
  ∀ b, _episode_reward_buffer self = Some b → length b = nb_env self.

End CountsRewards.

(** ** The float32 values of the reward tensor

    [torch.zeros] and [.float()] make tensors of IEEE 754 binary32 numbers,
    and [+=] on them rounds to nearest, ties to even. *)
Module Float32.

Definition prec : Z := 24.
Definition emax : Z := 128.

Definition t : Type := SpecFloat.spec_float.

(** An entry of [torch.zeros(n)]. *)
Definition zero : t := SpecFloat.S754_zero false.

(** The sum of two entries, rounded. *)
Definition add (x y : t) : t := SpecFloat.SFadd prec emax x y.

(** The entry [.float()] makes of an integer. *)
Definition of_Z (z : Z) : t := SpecFloat.binary_normalize prec emax z 0 false.

Definition is_finite (x : t) : bool :=
  match x with
  | SpecFloat.S754_zero _ | SpecFloat.S754_finite _ _ _ => true
  | _ => false
  end.

(** The number a finite entry stands for. *)
Definition val (x : t) : Q :=
  match x with
  | SpecFloat.S754_finite s m e =>
      (inject_Z (if s then Z.neg m else Z.pos m) * 2 ^ e)%Q
  | _ => 0%Q
  end.

(** The addition of two entries loses nothing: the three numbers are
    finite and the rounded sum is the sum. *)
Definition exact_add (x y : t) : bool :=
  is_finite x && is_finite y && is_finite (add x y)
  && Qeq_bool (val (add x y)) (val x + val y).

End Float32.

(** The flags of a call, apart from its rewards. *)
Definition flags_of (terminals : list bool) (infos : list Info) : step :=
  {| rewards := []; terminals := terminals; infos := infos |}.

(** ** [_base.py]: [CountsRewards], on the float32 entries of the buffer

    The same class with the arithmetic of the tensor written out. A reward
    comes in as the entry [torch.tensor(rewards).float()] has for it. *)
Module CountsRewards32.

Record step : Type := mkStep {
  rewards : list Float32.t;
  terminals : list bool;
  infos : list Info
}.

Record t : Type := mk {
  nb_env : nat;
  _episode_reward_buffer : option (list Float32.t);
  _local_step_count : Z;
  _start_time : Q
}.

Definition init (n : nat) (clock : Q) : t :=
  {| nb_env := n; _episode_reward_buffer := None; _local_step_count := 0;
     _start_time := clock |}.

(** The lazy property [episode_reward_buffer]. *)
Definition episode_reward_buffer (self : t) : list Float32.t * t :=
  match _episode_reward_buffer self with
  | None =>
      let b := replicate (nb_env self) Float32.zero in
      (b, {| nb_env := nb_env self;
             _episode_reward_buffer := Some b;
             _local_step_count := _local_step_count self;
             _start_time := _start_time self |})
  | Some b => (b, self)
  end.

Definition set_episode_reward_buffer (self : t) (updated_buffer : list Float32.t) : t :=
  {| nb_env := nb_env self;
     _episode_reward_buffer := Some updated_buffer;
     _local_step_count := _local_step_count self;
     _start_time := _start_time self |}.

Definition set_local_step_count (self : t) (step_count : Z) : t :=
  {| nb_env := nb_env self;
     _episode_reward_buffer := _episode_reward_buffer self;
     _local_step_count := step_count;
     _start_time := _start_time self |}.

Definition buffer (self : t) : list Float32.t := fst (episode_reward_buffer self).

(** [buf += torch.tensor(rewards).float()] *)
Definition iadd (buf rs : list Float32.t) : outcome (list Float32.t) :=
  if decide (length rs = length buf) then Returned (zip_with Float32.add buf rs)
  else match rs with
       | [r] => Returned ((λ b, Float32.add b r) <$> buf)
       | _ => Raised RuntimeError
       end.

(** The loop over [zip(self.episode_reward_buffer, terminals, infos)]. *)
Fixpoint scan (buf : list Float32.t) (ts : list bool) (fs : list Info)
  : list Float32.t * (list Float32.t * list Info) :=
  match buf, ts, fs with
  | ep_reward :: buf', done :: ts', info :: fs' =>
      let '(b, (trs, tis)) := scan buf' ts' fs' in
      if done && truthy info
      then (Float32.zero :: b, (ep_reward :: trs, info :: tis))
      else (ep_reward :: b, (trs, tis))
  | _, _, _ => (buf, ([], []))
  end.

(** [update_buffers(rewards, terminals, infos)] *)
Definition update_buffers (self : t) (c : step)
  : t * outcome (list Float32.t * list Info) :=
  let '(buf, self) := episode_reward_buffer self in
  match iadd buf (rewards c) with
  | Raised e => (self, Raised e)
  | Returned buf =>
      let self := set_episode_reward_buffer self buf in
      let self :=
        set_local_step_count self (_local_step_count self + Z.of_nat (nb_env self)) in
      let '(buf, out) := scan buf (terminals c) (infos c) in
      (set_episode_reward_buffer self buf, Returned out)
  end.

(** A sequence of calls, each on the state the previous one left. *)
Definition updates (self : t) (calls : list step) : t :=
  foldl (λ s c, fst (update_buffers s c)) self calls.

(** What the calls of such a sequence return or raise, in order. *)
Fixpoint outputs (self : t) (calls : list step)
  : list (outcome (list Float32.t * list Info)) :=
  match calls with
  | [] => []
  | c :: calls' =>
      snd (update_buffers self c) :: outputs (fst (update_buffers self c)) calls'
  end.

(** The flags of a call. *)
Definition flags (c : step) := flags_of (terminals c) (infos c).

(** *** The rewards a slot emits, read off what the calls return

    [terminal_rewards] has an entry for every slot with a true terminal
    flag and a non-empty info, in slot order: the entry of slot [i], when
    it has one, is at the place [rank i]. *)
Definition entry (i : nat) (c : step) (out : outcome (list Float32.t * list Info))
  : option Float32.t :=
  match out with
  | Returned (terminal_rewards, _) =>
      if completing i (flags c) then terminal_rewards !! rank i (flags c) else None
  | Raised _ => None
  end.

(** The number an entry stands for, zero when there is no entry. *)
Definition number (x : option Float32.t) : Q := from_option Float32.val 0%Q x.

(** The number a vector holds for slot [i], zero outside it. *)
Definition val_at (i : nat) (l : list Float32.t) : Q := number (l !! i).


(** Sum of the raw rewards handed in for slot [i]. *)
Fixpoint ingested (i : nat) (calls : list step) : Q :=
  match calls with
  | [] => 0%Q
  | c :: calls' => (val_at i (rewards c) + ingested i calls')%Q
  end.

(** Every addition made for slot [i] along the calls loses nothing. *)
Fixpoint exact (i : nat) (self : t) (calls : list step) : bool :=
  match calls with
  | [] => true
  | c :: calls' =>
      match buffer self !! i, rewards c !! i with
      | Some b, Some r => Float32.exact_add b r
      | _, _ => false
      end
      && exact i (fst (update_buffers self c)) calls'
  end.

Definition wf (self : t) : Prop :=
  ∀ b, _episode_reward_buffer self = Some b → length b = nb_env self.

End CountsRewards32.

(** ** [_base.py]: [LogsRewards] *)
Module LogsRewards.

(** A line handed to [logger.info], by the values it formats. *)
Inductive line : Type :=
  | StepLine (global_step_count : Z) (ep_reward : Q) (steps_per_s : Q)
  | RankLine (rank global_step_count : Z) (ep_reward : Q)
             (global_steps_per_s local_steps_per_s : Q).

(** The reward counter it extends, and the lines logged so far, oldest
    first. *)
Record t : Type := mk {
  counts : CountsRewards.t;
  logger : list line
}.

Definition info (self : t) (l : line) : t :=
  {| counts := counts self; logger := logger self ++ [l] |}.

(** The line of a call that logs, by the values the two branches
    format. *)
Definition format (rank : option Z) (global_step_count local_step_count : Z)
    (initial_step_count : Z) (ep_reward delta_t : Q) : line :=
  match rank with
  | None =>
      StepLine global_step_count ep_reward
        (inject_Z (local_step_count - initial_step_count) / delta_t)
  | Some rank =>
      RankLine rank global_step_count ep_reward
        (inject_Z (global_step_count - initial_step_count) / delta_t)
        (inject_Z (local_step_count - initial_step_count) / delta_t)
  end.

(** [log_episode_results]; [now] is what [time()] answers during the
    call. The result is the method's return value. *)
Definition log_episode_results (self : t) (now : Q)
    (terminal_rewards : list Z) (terminal_infos : list Info)
    (global_step_count : Z) (local_step_count : option Z)
    (rank : option Z) (initial_step_count : Z)
  : t * outcome (list Z) :=
  match terminal_rewards with
  | [] => (self, Returned terminal_rewards)
  | _ :: _ =>
      let local_step_count := default global_step_count local_step_count in
      let ep_reward := mean terminal_rewards in
      let delta_t := (now - CountsRewards._start_time (counts self))%Q in
      match rank with
      | None =>
          match truediv (inject_Z (local_step_count - initial_step_count)) delta_t with
          | Raised e => (self, Raised e)
          | Returned rate =>
              (info self (StepLine global_step_count ep_reward rate),
               Returned terminal_rewards)
          end
      | Some rank =>
          match truediv (inject_Z (global_step_count - initial_step_count)) delta_t with
          | Raised e => (self, Raised e)
          | Returned grate =>
              match truediv (inject_Z (local_step_count - initial_step_count)) delta_t with
              | Raised e => (self, Raised e)
              | Returned lrate =>
                  (info self (RankLine rank global_step_count ep_reward grate lrate),
                   Returned terminal_rewards)
              end
          end
      end
  end.

End LogsRewards.

(** ** [_base.py]: [LogsAndSummarizesRewards] *)
Module LogsAndSummarizesRewards.

(** The logger it extends, and the scalars handed to
    [summary_writer.add_scalar], oldest first: tag, value and step. *)
Record t : Type := mk {
  logs : LogsRewards.t;
  summary_writer : list (string * Q * Z)
}.

(** The property [summary_name]. *)
Definition summary_name : string := "reward/train".

Definition add_scalar (self : t) (tag : string) (value : Q) (step : Z) : t :=
  {| logs := logs self;
     summary_writer := summary_writer self ++ [(tag, value, step)] |}.

(** [write_reward_summaries(terminal_rewards, step_count)]: the new
    state and the value returned. *)
Definition write_reward_summaries (self : t) (terminal_rewards : list Z)
    (step_count : Z) : t * list Z :=
  match terminal_rewards with
  | [] => (self, terminal_rewards)
  | _ :: _ =>
      let ep_reward := mean terminal_rewards in
      (add_scalar self summary_name ep_reward step_count, terminal_rewards)
  end.

(** A sequence of calls, each on the state the previous one left. *)
Definition writes (self : t) (calls : list (list Z * Z)) : t :=
  foldl (λ s call, fst (write_reward_summaries s (fst call) (snd call))) self calls.

End LogsAndSummarizesRewards.

(** ** [_base.py]: [WritesSummaries] *)
Module WritesSummaries.

(** [_prev_summary_time], the abstract [summary_frequency], and the step
    counts of the summaries written, oldest first. *)
Record t : Type := mk {
  _prev_summary_time : Q;
  summary_frequency : Q;
  written : list Z
}.

(** [write_summaries]; [cur_time] is what [time()] answers. Of the
    writer calls only the fact that a summary was written is kept. *)
Definition write_summaries (self : t) (cur_time : Q) (step_count : Z) : t :=
  let elapsed := (cur_time - _prev_summary_time self)%Q in
  if negb (Qle_bool elapsed (summary_frequency self))
  then {| _prev_summary_time := cur_time;
          summary_frequency := summary_frequency self;
          written := written self ++ [step_count] |}
  else self.

(** A sequence of calls, given by the clock value and the step count of
    each. *)
Definition ticks (self : t) (calls : list (Q * Z)) : t :=
  foldl (λ s call, write_summaries s (fst call) (snd call)) self calls.

(** *** What a call that fires hands to the writer

    The tensors come in by what the code reads of them: a loss by its
    [item()], a metric by the length of its [shape] and its [item()], a
    parameter by its name, the [item()] of its norm and, when it has a
    gradient, of the norm of the gradient. The dictionaries are lists in
    insertion order. *)
Inductive call : Type :=
  | add_scalar (tag : string) (value : Q) (step : Z)
  | add_image (tag : string) (step : Z).

Record metric : Type := mkMetric {
  ndim : nat;
  item : Q
}.

Record param : Type := mkParam {
  norm : Q;
  grad : option Q
}.

(** [p_name.replace('.', '/')] *)
Fixpoint replace_dots (s : string) : string :=
  match s with
  | EmptyString => EmptyString
  | String a s' =>
      String (if Ascii.eqb a "."%char then "/"%char else a) (replace_dots s')
  end.

(** Whether a name has a dot in it. *)
Fixpoint has_dot (s : string) : bool :=
  match s with
  | EmptyString => false
  | String a s' => Ascii.eqb a "."%char || has_dot s'
  end.

(** The step a call is made at. *)
Definition step_of (c : call) : Z :=
  match c with
  | add_scalar _ _ step => step
  | add_image _ step => step
  end.

(** The body of [for m_name, metric in metric_dict.items()]. *)
Definition metric_calls (step_count : Z) (entry : string * metric) : list call :=
  let '(m_name, metric) := entry in
  (if (ndim metric <=? 1)%nat
   then [add_scalar ("metric/" +:+ m_name) (item metric) step_count]
   else [])
  ++ (if (ndim metric =? 3)%nat then [add_image m_name step_count] else []).

(** The body of [for p_name, param in self.network.named_parameters()]. *)
Definition param_calls (step_count : Z) (entry : string * param) : list call :=
  let '(p_name, param) := entry in
  let p_name := replace_dots p_name in
  add_scalar p_name (norm param) step_count
  :: match grad param with
     | Some g => [add_scalar (p_name +:+ ".grad") g step_count]
     | None => []
     end.

(** The writer calls of the branch [if elapsed > self.summary_frequency],
    in order. *)
Definition summary_calls (total_loss : Q) (loss_dict : list (string * Q))
    (metric_dict : list (string * metric))
    (named_parameters : list (string * param)) (step_count : Z) : list call :=
  add_scalar "macro_loss/total_loss" total_loss step_count
  :: ((λ '(l_name, loss), add_scalar ("loss/" +:+ l_name) loss step_count)
        <$> loss_dict)
  ++ mjoin (metric_calls step_count <$> metric_dict)
  ++ mjoin (param_calls step_count <$> named_parameters).

End WritesSummaries.

(** ** [_base.py]: [SavesModels] *)
Module SavesModels.

(** [_next_save], the abstract [epoch_len], and the step counts handed to
    [saver.save_state_dicts], oldest first. *)
Record t : Type := mk {
  _next_save : Z;
  epoch_len : Z;
  saved : list Z
}.

(** A new object: the class-level default [_next_save = 0]. *)
Definition init (epoch_len : Z) : t :=
  {| _next_save := 0; epoch_len := epoch_len; saved := [] |}.

Definition set_next (self : t) (step_count : Z) : t :=
  {| _next_save := step_count; epoch_len := epoch_len self; saved := saved self |}.

Definition save_state_dicts (self : t) (step_count : Z) : t :=
  {| _next_save := _next_save self; epoch_len := epoch_len self;
     saved := saved self ++ [step_count] |}.

(** [save_model_if_epoch(step_count)] *)
Definition save_model_if_epoch (self : t) (step_count : Z) : t :=
  if _next_save self <=? step_count
  then
    let self := save_state_dicts self step_count in
    set_next self (_next_save self + epoch_len self)
  else self.

(** The [while] loop of [set_next_save]. [fuel] bounds the number of
    iterations; [None] means the loop is still running when it is used
    up. *)
Fixpoint fast_forward (fuel : nat) (self : t) (initial_count : Z) : option t :=
  if _next_save self <=? initial_count
  then match fuel with
       | O => None
       | S fuel' =>
           fast_forward fuel' (set_next self (_next_save self + epoch_len self))
                        initial_count
       end
  else Some self.

(** [set_next_save(initial_count)] *)
Definition set_next_save (fuel : nat) (self : t) (initial_count : Z) : option t :=
  if 0 <? initial_count then fast_forward fuel self initial_count
  else Some self.

(** A sequence of checks, each on the state the previous one left. *)
Definition checks (self : t) (step_counts : list Z) : t :=
  foldl save_model_if_epoch self step_counts.

End SavesModels.

(** ** [evaluation.py]: [Evaluation] *)
Module Evaluation.

(** [Evaluation] extends [CountsRewards]; [nb_env] is the one of its
    environment. *)
Record t : Type := mk {
  counts : CountsRewards.t;
  _episode_count : Z;
  episode_complete_statuses : list bool
}.

(** [__init__] *)
Definition init (nb_env : nat) (clock : Q) : t :=
  {| counts := CountsRewards.init nb_env clock;
     _episode_count := 0;
     episode_complete_statuses := replicate nb_env false |}.

Definition set_counts (self : t) (c : CountsRewards.t) : t :=
  {| counts := c; _episode_count := _episode_count self;
     episode_complete_statuses := episode_complete_statuses self |}.

Definition buffer (self : t) : list Z := CountsRewards.buffer (counts self).

(** The attributes an ingest has no reason to touch. *)
Definition rest (self : t) : nat * Z * Q * Z :=
  (CountsRewards.nb_env (counts self),
   CountsRewards._local_step_count (counts self),
   CountsRewards._start_time (counts self),
   _episode_count self).

(** The buffer and the statuses have one slot per environment. *)
Definition wf (self : t) : Prop :=
  CountsRewards.wf (counts self)
  ∧ length (episode_complete_statuses self) = CountsRewards.nb_env (counts self).

(** [self.episode_reward_buffer[i] += rewards[i]]: the getter runs first,
    then both index reads, then the slot is written. *)
Definition add_reward (i : nat) (self : t) (rs : list Z) : t * outcome unit :=
  let '(buf, c) := CountsRewards.episode_reward_buffer (counts self) in
  let self := set_counts self c in
  match buf !! i, rs !! i with
  | Some b, Some r =>
      (set_counts self (CountsRewards.set_episode_reward_buffer c (<[i := b + r]> buf)),
       Returned ())
  | _, _ => (self, Raised IndexError)
  end.

(** [self.episode_complete_statuses[i] = True] *)
Definition set_complete (i : nat) (self : t) : t :=
  {| counts := counts self; _episode_count := _episode_count self;
     episode_complete_statuses := <[i := true]> (episode_complete_statuses self) |}.

(** The body of the [for] loop of [update_buffers] at index [i]. The
    condition [terminals[i] and infos[i]] reads [infos[i]] only when
    [terminals[i]] is true. *)
Definition visit (i : nat) (self : t) (c : step) : t * outcome unit :=
  match episode_complete_statuses self !! i with
  | None => (self, Raised IndexError)
  | Some true => (self, Returned ())
  | Some false =>
      match terminals c !! i with
      | None => (self, Raised IndexError)
      | Some true =>
          match infos c !! i with
          | None => (self, Raised IndexError)
          | Some info =>
              if truthy info
              then match add_reward i self (rewards c) with
                   | (self, Returned _) => (set_complete i self, Returned ())
                   | r => r
                   end
              else add_reward i self (rewards c)
          end
      | Some false => add_reward i self (rewards c)
      end
  end.

(** The [for] loop over the given indices; an exception leaves it. *)
Fixpoint loop (indices : list nat) (self : t) (c : step) : t * outcome unit :=
  match indices with
  | [] => (self, Returned ())
  | i :: indices' =>
      match visit i self c with
      | (self, Returned _) => loop indices' self c
      | r => r
      end
  end.

(** [update_buffers(rewards, terminals, infos)]: [range(len(rewards))] *)
Definition update_buffers (self : t) (c : step) : t * outcome unit :=
  loop (seq 0 (length (rewards c))) self c.

(** A sequence of calls, each on the state the previous one left, whether
    it returned or raised. *)
Definition updates (self : t) (calls : list step) : t :=
  foldl (λ s c, fst (update_buffers s c)) self calls.

(** [run()]. The environment and the agent are given by the answers the
    environment makes to the successive [step] calls; [None] means the
    loop has used them up and is still running. Of the pair returned
    the mean is kept, the standard deviation is left out. *)
Fixpoint run (answers : list step) (self : t) : option (t * outcome Q) :=
  if all (episode_complete_statuses self)
  then Some (self, Returned (mean (buffer self)))
  else match answers with
       | [] => None
       | c :: answers' =>
           match update_buffers self c with
           | (self, Returned _) => run answers' self
           | (self, Raised e) => Some (self, Raised e)
           end
       end.

End Evaluation.

(** ** [evaluation.py]: [EvalContainer] *)
Module EvalContainer.

(** [_device_from_gpu_id(gpu_id)]: the name the device is made from;
    [cuda_is_available] is what [torch.cuda.is_available()] answers. *)
Definition _device_from_gpu_id (cuda_is_available : bool) (gpu_id : Z) : string :=
  if cuda_is_available && (0 <=? gpu_id) then "cuda:" +:+ pretty gpu_id
  else "cpu".

(** The locals of [run] that a pass works on: [reward_buf] and
    [episode_completes]. *)
Record locals : Type := mk {
  reward_buf : list Z;
  episode_completes : list bool
}.

(** [reward_buf[i] += rewards[i]] *)
Definition add_reward (i : nat) (l : locals) (rs : list Z) : locals * outcome unit :=
  match reward_buf l !! i, rs !! i with
  | Some b, Some r =>
      ({| reward_buf := <[i := b + r]> (reward_buf l);
          episode_completes := episode_completes l |}, Returned ())
  | _, _ => (l, Raised IndexError)
  end.

(** [episode_completes[i] = True] *)
Definition set_complete (i : nat) (l : locals) : locals :=
  {| reward_buf := reward_buf l;
     episode_completes := <[i := true]> (episode_completes l) |}.

(** The body of the inner [for] loop at index [i]. *)
Definition visit (i : nat) (l : locals) (c : step) : locals * outcome unit :=
  match episode_completes l !! i with
  | None => (l, Raised IndexError)
  | Some true => (l, Returned ())
  | Some false =>
      match terminals c !! i with
      | None => (l, Raised IndexError)
      | Some true =>
          match infos c !! i with
          | None => (l, Raised IndexError)
          | Some info =>
              if truthy info
              then match add_reward i l (rewards c) with
                   | (l, Returned _) => (set_complete i l, Returned ())
                   | r => r
                   end
              else add_reward i l (rewards c)
          end
      | Some false => add_reward i l (rewards c)
      end
  end.

(** [for i in range(self.env_mgr.nb_env)] *)
Fixpoint loop (indices : list nat) (l : locals) (c : step) : locals * outcome unit :=
  match indices with
  | [] => (l, Returned ())
  | i :: indices' =>
      match visit i l c with
      | (l, Returned _) => loop indices' l c
      | r => r
      end
  end.

Definition ingest (nb_env : nat) (l : locals) (c : step) : locals * outcome unit :=
  loop (seq 0 nb_env) l c.



(** The buffer and the statuses of an [Evaluation], read as the locals of
    this loop. *)
Definition of_evaluation (e : Evaluation.t) : locals :=
  {| reward_buf := Evaluation.buffer e;
     episode_completes := Evaluation.episode_complete_statuses e |}.

(** [while not all(episode_completes)]. The environment is given by the
    answers it makes to the successive [step] calls; [None] means the
    loop has used them up and is still running. *)
Fixpoint while_running (nb_env : nat) (answers : list step) (l : locals)
  : option (locals * outcome unit) :=
  if all (episode_completes l) then Some (l, Returned ())
  else match answers with
       | [] => None
       | c :: answers' =>
           match ingest nb_env l c with
           | (l, Returned _) => while_running nb_env answers' l
           | r => Some r
           end
       end.

(** What a pass reports: the buffer its statistics are taken from, and
    [reward_buf.mean()]. The standard deviation is left out. *)
Record report : Type := mkReport {
  snapshot : list Z;
  mean_reward : Q
}.

(** One network of an epoch, from [episode_completes = [...]] to
    [reward_buf.mean()]: the pass starts on the [reward_buf] it is
    given. *)
Definition pass (nb_env : nat) (reward_buf : list Z) (answers : list step)
  : option (list Z * outcome report) :=
  match while_running nb_env answers
          {| reward_buf := reward_buf;
             episode_completes := replicate nb_env false |} with
  | None => None
  | Some (l, Raised e) => Some (EvalContainer.reward_buf l, Raised e)
  | Some (l, Returned _) =>
      Some (EvalContainer.reward_buf l,
            Returned {| snapshot := EvalContainer.reward_buf l;
                        mean_reward := mean (EvalContainer.reward_buf l) |})
  end.

(** [for net_path in ...network_paths_at_epoch(epoch_id)]: the passes of
    one epoch, each given by the answers of the environment during it. *)
Fixpoint passes (nb_env : nat) (reward_buf : list Z) (nets : list (list step))
  : option (outcome (list report)) :=
  match nets with
  | [] => Some (Returned [])
  | answers :: nets' =>
      match pass nb_env reward_buf answers with
      | None => None
      | Some (_, Raised e) => Some (Raised e)
      | Some (reward_buf, Returned r) =>
          match passes nb_env reward_buf nets' with
          | None => None
          | Some (Raised e) => Some (Raised e)
          | Some (Returned rs) => Some (Returned (r :: rs))
          end
      end
  end.

(** The body of [for epoch_id in ...epochs()] up to the end of the inner
    loop: [reward_buf = torch.zeros(nb_env)], then the passes. *)
Definition epoch (nb_env : nat) (nets : list (list step))
  : option (outcome (list report)) :=
  passes nb_env (zeros nb_env) nets.

(** [if mean >= best_mean] along the passes of an epoch: [best_mean]
    starts at minus infinity ([None]); [selected_model] is given by the
    position of its network in the epoch. *)
Fixpoint select (best : option (Q * nat)) (k : nat) (reports : list report)
  : option (Q * nat) :=
  match reports with
  | [] => best
  | r :: reports' =>
      let best :=
        match best with
        | None => Some (mean_reward r, k)
        | Some (best_mean, _) =>
            if Qle_bool best_mean (mean_reward r) then Some (mean_reward r, k)
            else best
        end in
      select best (S k) reports'
  end.

(** What the epoch prints and appends to the evaluation file:
    [best_mean] and [selected_model]. *)
Definition selected (nb_env : nat) (nets : list (list step))
  : option (outcome (option (Q * nat))) :=
  match epoch nb_env nets with
  | None => None
  | Some (Raised e) => Some (Raised e)
  | Some (Returned reports) => Some (Returned (select None 0 reports))
  end.

End EvalContainer.

(** * Properties *)


(** ** Training mode: [CountsRewards.update_buffers] *)
Section Training.

Import CountsRewards.

Lemma iadd_same_length (buf rs : list Z) :
  length rs = length buf → iadd buf rs = Returned (zip_with Z.add buf rs).
Proof. intros H. unfold iadd. by rewrite decide_True. Qed.



Lemma scan_length (buf : list Z) (ts : list bool) (fs : list Info) :
  length (scan buf ts fs).1 = length buf.
Proof.
  revert ts fs. induction buf as [|b buf IH]; intros [|d ts] [|f fs]; try done.
  simpl. specialize (IH ts fs). destruct (scan buf ts fs) as [b' [trs tis]].
  destruct (d && truthy f); simpl in *; by rewrite IH.
Qed.


Lemma buffer_length (self : t) : wf self → length (buffer self) = nb_env self.
Proof.
  unfold wf, buffer, episode_reward_buffer. intros Hwf.
  destruct (_episode_reward_buffer self) as [b|]; simpl; [by apply Hwf|].
  apply length_replicate.
Qed.

(** A call whose rewards have one entry per environment returns, and this
    is the state it leaves. *)
Lemma update_buffers_full (self : t) (c : step) :
  wf self → length (rewards c) = nb_env self →
  update_buffers self c =
    let r := scan (zip_with Z.add (buffer self) (rewards c)) (terminals c) (infos c) in
    ({| nb_env := nb_env self;
        _episode_reward_buffer := Some r.1;
        _local_step_count := _local_step_count self + Z.of_nat (nb_env self);
        _start_time := _start_time self |},
     Returned r.2).
Proof.
  intros Hwf Hlen. pose proof (buffer_length self Hwf) as Hb.
  unfold update_buffers, buffer in *.
  destruct (episode_reward_buffer self) as [buf self'] eqn:E. simpl in *.
  rewrite iadd_same_length by congruence.
  destruct (scan _ _ _) as [b out]. simpl.
  unfold episode_reward_buffer in E.
  destruct (_episode_reward_buffer self); by simplify_eq/=.
Qed.

Lemma update_buffers_wf (self : t) (c : step) :
  wf self → length (rewards c) = nb_env self →
  wf (update_buffers self c).1 ∧ nb_env (update_buffers self c).1 = nb_env self.
Proof.
  intros Hwf Hlen. rewrite update_buffers_full by done. simpl. split; [|done].
  intros b [= <-]. simpl. rewrite scan_length, length_zip_with.
  rewrite buffer_length by done. lia.
Qed.


Lemma truthy_empty : truthy ∅ = false.
Proof. unfold truthy. by apply bool_decide_eq_false_2; intros []. Qed.

Lemma omap_shift {A} (f : nat → option A) (l : list nat) :
  omap f (S <$> l) = omap (f ∘ S) l.
Proof. induction l as [|j l IH]; [done|]. csimpl. by rewrite IH. Qed.

Lemma omap_none {A B} (f : A → option B) (l : list A) :
  (∀ x, f x = None) → omap f l = [].
Proof. intros Hf. induction l as [|x l IH]; [done|]. csimpl. by rewrite Hf. Qed.

(** [terminal_rewards] lists, in slot order, the values of the slots that
    complete. *)
Lemma scan_rewards (buf : list Z) (c : step) :
  (scan buf (terminals c) (infos c)).2.1
  = omap (λ i, if completes i buf c then buf !! i else None) (seq 0 (length buf)).
Proof.
  destruct c as [rs ts fs]. unfold completes. simpl.
  revert ts fs. induction buf as [|b buf IH]; intros ts fs.
  { by destruct ts, fs. }
  rewrite length_cons. cbn [seq]. rewrite <- fmap_S_seq.
  destruct ts as [|d ts], fs as [|f fs].
  1-3: cbn [scan snd fst]; symmetry; apply omap_none;
    intros j; rewrite ?lookup_nil; by repeat case_match.
  cbn [omap list_omap]. rewrite omap_shift. cbn [lookup list_lookup].
  specialize (IH ts fs). simpl.
  destruct (scan buf ts fs) as [b' [trs tis]]. simpl in IH.
  destruct (d && truthy f); simpl; rewrite IH; done.
Qed.

(** The rewards a full call returns are the per-slot emissions, in slot
    order. *)
Lemma terminal_rewards_by_slot (self : t) (c : step) :
  wf self → length (rewards c) = nb_env self →
  ∃ tis, (update_buffers self c).2
         = Returned (omap (λ i, slot_emission i self c) (seq 0 (nb_env self)), tis).
Proof.
  intros Hwf Hlen. pose proof (buffer_length self Hwf) as Hb.
  rewrite update_buffers_full by done. simpl.
  set (buf := zip_with Z.add (buffer self) (rewards c)).
  exists (scan buf (terminals c) (infos c)).2.2.
  f_equal. rewrite (surjective_pairing (scan _ _ _).2). f_equal.
  rewrite scan_rewards. unfold slot_emission.
  rewrite iadd_same_length by congruence. fold buf.
  replace (length buf) with (nb_env self); [done|].
  unfold buf. rewrite length_zip_with. lia.
Qed.

(** *** The place of a slot in the returned lists *)

Lemma omap_seq_rank_length {A} (g : nat → option A) (c : step) (n i : nat) :
  (i ≤ n)%nat →
  (∀ j, (j < n)%nat → is_Some (g j) ↔ completing j c = true) →
  length (omap g (seq 0 i)) = rank i c.
Proof.
  intros Hi Hg. induction i as [|i IH]; [done|].
  rewrite seq_S, omap_app, length_app, IH by lia. simpl. f_equal.
  destruct (Hg i) as [H1 H2]; [lia|]. csimpl.
  destruct (g i) as [x|], (completing i c); simpl; try done.
  - by specialize (H1 (mk_is_Some _ _ eq_refl)).
  - by destruct (H2 eq_refl).
Qed.

Lemma omap_seq_rank {A} (g : nat → option A) (c : step) (n i : nat) (x : A) :
  (i < n)%nat →
  (∀ j, (j < n)%nat → is_Some (g j) ↔ completing j c = true) →
  g i = Some x →
  omap g (seq 0 n) !! rank i c = Some x.
Proof.
  intros Hi Hg Hx.
  rewrite <- (omap_seq_rank_length g c n i) by (done || lia).
  replace n with (i + S (n - S i))%nat by lia.
  rewrite seq_app, omap_app, lookup_app_r by done.
  rewrite Nat.sub_diag. csimpl. by rewrite Hx.
Qed.

Lemma total_zip_add (buf rs : list Z) :
  length rs = length buf → total (zip_with Z.add buf rs) = total buf + total rs.
Proof.
  revert rs. induction buf as [|b buf IH]; intros [|r rs] Hlen;
    simplify_eq/=; [done|].
  rewrite IH by done. lia.
Qed.

(** The loop moves values from the buffer to [terminal_rewards]; the two
    returned lists go in pairs, the infos being non-empty ones of
    [infos], in order. *)
Lemma scan_outputs (buf : list Z) (ts : list bool) (fs : list Info) :
  total (scan buf ts fs).2.1 + total (scan buf ts fs).1 = total buf
  ∧ length (scan buf ts fs).2.1 = length (scan buf ts fs).2.2
  ∧ (length (scan buf ts fs).2.1 ≤ length buf)%nat
  ∧ (scan buf ts fs).2.2 `sublist_of` fs
  ∧ Forall (λ info, truthy info = true) (scan buf ts fs).2.2.
Proof.
  revert ts fs. induction buf as [|b buf IH]; intros ts fs.
  { destruct ts, fs; simpl; repeat split; try done; apply sublist_nil_l. }
  destruct ts as [|d ts], fs as [|f fs]; simpl;
    try (repeat split; try done; try lia; apply sublist_nil_l).
  destruct (IH ts fs) as (Ht & Hl & Hle & Hs & Hf).
  destruct (scan buf ts fs) as [b' [trs tis]]. simpl in *.
  destruct d; simpl; [destruct (truthy f) eqn:E; simpl|].
  - repeat split; try lia; [by apply sublist_skip|by constructor].
  - repeat split; try done; try lia. by apply sublist_cons.
  - repeat split; try done; try lia. by apply sublist_cons.
Qed.

Lemma completes_completing (i : nat) (buf : list Z) (c : step) :
  is_Some (buf !! i) → completes i buf c = completing i c.
Proof.
  intros [b Hb]. unfold completes, completing. rewrite Hb.
  by destruct (terminals c !! i) as [[|]|], (infos c !! i).
Qed.


(** The returned rewards, by place: as many as there are slots with a
    true terminal flag and a non-empty info, and the entry at the place of
    such a slot is the value of the slot. *)
Lemma scan_rewards_rank (buf : list Z) (c : step) :
  length (scan buf (terminals c) (infos c)).2.1 = rank (length buf) c
  ∧ ∀ i b, buf !! i = Some b → completing i c = true →
      (scan buf (terminals c) (infos c)).2.1 !! rank i c = Some b.
Proof.
  rewrite scan_rewards.
  assert (∀ j, (j < length buf)%nat →
            is_Some (if completes j buf c then buf !! j else None)
            ↔ completing j c = true) as Hg.
  { intros j Hj. destruct (lookup_lt_is_Some_2 buf j Hj) as [b Hb].
    rewrite completes_completing by (by rewrite Hb). rewrite Hb.
    destruct (completing j c); split; try done; by intros []. }
  split.
  - by apply (omap_seq_rank_length _ c (length buf)).
  - intros i b Hb Hc. apply (omap_seq_rank _ c); [by eapply lookup_lt_Some|done|].
    rewrite completes_completing by (by rewrite Hb). by rewrite Hc.
Qed.

(** *** Vectors of the wrong length *)




End Training.

(** ** Training mode on the float32 buffer: [CountsRewards.update_buffers] *)
Section Training32.

Import CountsRewards32.

Lemma iadd32_same_length (buf rs : list Float32.t) :
  length rs = length buf → iadd buf rs = Returned (zip_with Float32.add buf rs).
Proof. intros H. unfold iadd. by rewrite decide_True. Qed.

Lemma scan32_lookup (buf : list Float32.t) (ts : list bool) (fs : list Info)
    (i : nat) (b : Float32.t) :
  buf !! i = Some b →
  (scan buf ts fs).1 !! i
  = Some (if completing i (flags_of ts fs) then Float32.zero else b).
Proof.
  revert ts fs i. induction buf as [|b0 buf IH]; intros ts fs i Hb; [done|].
  destruct ts as [|d ts], fs as [|f fs];
    try (unfold completing; simpl; rewrite ?lookup_nil, Hb;
         by repeat case_match).
  simpl. specialize (IH ts fs).
  destruct (scan buf ts fs) as [b' [trs tis]]. simpl in IH.
  destruct i as [|i]; simplify_eq/=.
  - unfold completing. simpl. by destruct d, (truthy f).
  - destruct (d && truthy f); simpl; by apply IH.
Qed.


(** [terminal_rewards] lists, in slot order, the values of the slots
    with a true terminal flag and a non-empty info. *)
Lemma scan32_rewards (buf : list Float32.t) (ts : list bool) (fs : list Info) :
  (scan buf ts fs).2.1
  = omap (λ i, if completing i (flags_of ts fs) then buf !! i else None)
      (seq 0 (length buf)).
Proof.
  revert ts fs. induction buf as [|b buf IH]; intros ts fs.
  { by destruct ts, fs. }
  rewrite length_cons. cbn [seq]. rewrite <- fmap_S_seq.
  destruct ts as [|d ts], fs as [|f fs].
  1-3: cbn [scan snd fst]; symmetry; apply omap_none;
    intros j; unfold completing; simpl; rewrite ?lookup_nil;
    by repeat case_match.
  cbn [omap list_omap]. rewrite omap_shift.
  specialize (IH ts fs). simpl.
  destruct (scan buf ts fs) as [b' [trs tis]]. simpl in IH.
  unfold completing at 1. simpl.
  destruct d, (truthy f); simpl; rewrite IH; done.
Qed.

Lemma buffer32_length (self : t) : wf self → length (buffer self) = nb_env self.
Proof.
  unfold wf, buffer, episode_reward_buffer. intros Hwf.
  destruct (_episode_reward_buffer self) as [b|]; simpl; [by apply Hwf|].
  apply length_replicate.
Qed.

Lemma update_buffers32_full (self : t) (c : step) :
  wf self → length (rewards c) = nb_env self →
  update_buffers self c =
    let r := scan (zip_with Float32.add (buffer self) (rewards c))
               (terminals c) (infos c) in
    ({| nb_env := nb_env self;
        _episode_reward_buffer := Some r.1;
        _local_step_count := _local_step_count self + Z.of_nat (nb_env self);
        _start_time := _start_time self |},
     Returned r.2).
Proof.
  intros Hwf Hlen. pose proof (buffer32_length self Hwf) as Hb.
  unfold update_buffers, buffer in *.
  destruct (episode_reward_buffer self) as [buf self'] eqn:E. simpl in *.
  rewrite iadd32_same_length by congruence.
  destruct (scan _ _ _) as [b out]. simpl.
  unfold episode_reward_buffer in E.
  destruct (_episode_reward_buffer self); by simplify_eq/=.
Qed.


(** One call, for one slot: the sum [a] the addition leaves in the slot
    is, when the slot completes, the entry the call returns for it, zero
    being left in the slot; otherwise it stays in the slot and the call
    returns no entry for the slot. *)
Lemma update_buffers32_slot (self : t) (c : step) (i : nat) (b r : Float32.t) :
  wf self → length (rewards c) = nb_env self →
  buffer self !! i = Some b → rewards c !! i = Some r →
  entry i c (update_buffers self c).2
  = (if completing i (flags c) then Some (Float32.add b r) else None)
  ∧ buffer (update_buffers self c).1 !! i
    = Some (if completing i (flags c) then Float32.zero else Float32.add b r).
Proof.
  intros Hwf Hlen Hb Hr. pose proof (buffer32_length self Hwf) as Hbl.
  rewrite update_buffers32_full by done.
  set (buf := zip_with Float32.add (buffer self) (rewards c)).
  assert (buf !! i = Some (Float32.add b r)) as Hbi
    by (unfold buf; by rewrite lookup_zip_with, Hb, Hr).
  unfold buffer at 1. simpl. split; [|by apply scan32_lookup].
  unfold entry. destruct (scan buf (terminals c) (infos c)) as [b' [trs tis]] eqn:Es.
  simpl. destruct (completing i (flags c)) eqn:Hc; [|done].
  pose proof (scan32_rewards buf (terminals c) (infos c)) as Hrew.
  rewrite Es in Hrew. simpl in Hrew. rewrite Hrew.
  apply (omap_seq_rank _ (flags c)); [by eapply lookup_lt_Some| |].
  - intros j Hj. destruct (lookup_lt_is_Some_2 buf j Hj) as [x Hx].
    fold (flags c). rewrite Hx.
    destruct (completing j (flags c)); split; try done; by intros [].
  - fold (flags c). by rewrite Hc.
Qed.





(** *** A true terminal flag with an empty info *)

(** A true terminal flag that the condition does not pass is to the loop
    as a false one. *)
Lemma scan32_flag_off (buf : list Float32.t) (ts : list bool) (fs : list Info)
    (i : nat) (d : bool) (f : Info) :
  ts !! i = Some d → fs !! i = Some f → d && truthy f = false →
  scan buf (<[i := false]> ts) fs = scan buf ts fs.
Proof.
  revert ts fs i. induction buf as [|b buf IH]; intros ts fs i Hd Hf Hoff.
  { by destruct ts, fs. }
  destruct ts as [|d0 ts], fs as [|f0 fs]; try done.
  destruct i as [|i]; simplify_eq/=.
  - rewrite Hoff. done.
  - by rewrite (IH ts fs i).
Qed.

(** The two returned lists go in pairs, one pair for each slot of the
    buffer with a true terminal flag and a non-empty info; the infos are
    non-empty ones of [infos], in order. *)
Lemma scan32_outputs (buf : list Float32.t) (ts : list bool) (fs : list Info) :
  length (scan buf ts fs).2.1 = rank (length buf) (flags_of ts fs)
  ∧ length (scan buf ts fs).2.2 = length (scan buf ts fs).2.1
  ∧ (scan buf ts fs).2.2 `sublist_of` fs
  ∧ Forall (λ info, truthy info = true) (scan buf ts fs).2.2.
Proof.
  split.
  { rewrite scan32_rewards.
    apply (omap_seq_rank_length _ (flags_of ts fs) (length buf)); [done|].
    intros j Hj. destruct (lookup_lt_is_Some_2 buf j Hj) as [x ->].
    destruct (completing j (flags_of ts fs)); split; try done; by intros []. }
  revert ts fs. induction buf as [|b buf IH]; intros ts fs.
  { destruct ts, fs; simpl; repeat split; try done; apply sublist_nil_l. }
  destruct ts as [|d ts], fs as [|f fs]; simpl;
    try (repeat split; try done; apply sublist_nil_l).
  destruct (IH ts fs) as (Hl & Hs & Hf).
  destruct (scan buf ts fs) as [b' [trs tis]]. simpl in *.
  destruct d; simpl; [destruct (truthy f) eqn:E; simpl|].
  - repeat split; [lia|by apply sublist_skip|by constructor].
  - repeat split; try done. by apply sublist_cons.
  - repeat split; try done. by apply sublist_cons.
Qed.

(** C4: in training mode a true terminal flag with an empty info is not
    a completion. A call with one reward per environment, in which slot
    [i] has [terminals[i]] true and [infos[i]] empty, returns and leaves
    what the same call with [terminals[i]] false does; the lists it
    returns have as many entries as there are slots with a true terminal
    flag and a non-empty info, slot [i] not being one of them, and the
    empty info is not among the returned infos; and the slot holds the
    float32 sum of what it held and the reward. And the rewards 1, 2, 3
    handed to a single slot with terminal flags false, true, false and
    an empty info at the second call leave 6 in the buffer, every call
    returning empty lists. *)
Theorem terminal_without_info_is_no_completion :
  (∀ (self : t) (c : step) (i : nat) (b r : Float32.t),
      wf self → length (rewards c) = nb_env self →
      buffer self !! i = Some b → rewards c !! i = Some r →
      terminals c !! i = Some true → infos c !! i = Some ∅ →
      update_buffers self c
      = update_buffers self
          {| rewards := rewards c;
             terminals := <[i := false]> (terminals c);
             infos := infos c |}
      ∧ (∃ (terminal_rewards : list Float32.t) (terminal_infos : list Info),
            (update_buffers self c).2 = Returned (terminal_rewards, terminal_infos)
            ∧ length terminal_rewards = rank (nb_env self) (flags c)
            ∧ length terminal_infos = rank (nb_env self) (flags c)
            ∧ Forall (λ info, truthy info = true) terminal_infos)
      ∧ completing i (flags c) = false
      ∧ buffer (update_buffers self c).1 !! i = Some (Float32.add b r))
  ∧ (∀ (clock : Q) (info1 info3 : Info),
      let calls := [mkStep [Float32.of_Z 1] [false] [info1];
                    mkStep [Float32.of_Z 2] [true] [∅];
                    mkStep [Float32.of_Z 3] [false] [info3]] in
      buffer (updates (init 1 clock) calls) = [Float32.of_Z 6]
      ∧ outputs (init 1 clock) calls
        = [Returned ([], []); Returned ([], []); Returned ([], [])]).
Proof.
  split.
  - intros self c i b r Hwf Hlen Hb Hr Ht Hf.
    pose proof (buffer32_length self Hwf) as Hbl.
    assert (completing i (flags c) = false) as Hno.
    { unfold completing. simpl. by rewrite Ht, Hf, truthy_empty. }
    split; [|split; [|split; [done|]]].
    + rewrite !update_buffers32_full by done. simpl.
      by rewrite (scan32_flag_off _ _ _ i true ∅ Ht Hf)
        by (by rewrite truthy_empty).
    + rewrite update_buffers32_full by done. simpl.
      set (buf := zip_with Float32.add (buffer self) (rewards c)).
      assert (length buf = nb_env self) as Hlb
        by (unfold buf; rewrite length_zip_with; lia).
      destruct (scan32_outputs buf (terminals c) (infos c)) as (Hr' & Hl & _ & Hf').
      rewrite Hlb in Hr'.
      exists (scan buf (terminals c) (infos c)).2.1,
             (scan buf (terminals c) (infos c)).2.2.
      split; [by destruct (scan _ _ _) as [? [? ?]]|].
      split; [done|]. split; [by rewrite Hl|done].
    + destruct (update_buffers32_slot self c i b r Hwf Hlen Hb Hr) as [_ Hb1].
      by rewrite Hno in Hb1.
  - intros clock info1 info3 calls. subst calls.
    split; vm_compute; reflexivity.
Qed.

Lemma terminal_without_info_is_no_completion_witness :
  update_buffers (init 2 0%Q)
    (mkStep [Float32.of_Z 4; Float32.of_Z 5] [true; true]
       [{[ "score"%string := 4 ]}; ∅])
  = update_buffers (init 2 0%Q)
      {| rewards := [Float32.of_Z 4; Float32.of_Z 5];
         terminals := <[1%nat := false]> [true; true];
         infos := [{[ "score"%string := 4 ]}; ∅] |}
  ∧ (∃ (terminal_rewards : list Float32.t) (terminal_infos : list Info),
        (update_buffers (init 2 0%Q)
           (mkStep [Float32.of_Z 4; Float32.of_Z 5] [true; true]
              [{[ "score"%string := 4 ]}; ∅])).2
        = Returned (terminal_rewards, terminal_infos)
        ∧ length terminal_rewards
          = rank 2 (flags (mkStep [Float32.of_Z 4; Float32.of_Z 5] [true; true]
                             [{[ "score"%string := 4 ]}; ∅]))
        ∧ length terminal_infos
          = rank 2 (flags (mkStep [Float32.of_Z 4; Float32.of_Z 5] [true; true]
                             [{[ "score"%string := 4 ]}; ∅]))
        ∧ Forall (λ info, truthy info = true) terminal_infos)
  ∧ completing 1 (flags (mkStep [Float32.of_Z 4; Float32.of_Z 5] [true; true]
                           [{[ "score"%string := 4 ]}; ∅]))
    = false
  ∧ buffer (update_buffers (init 2 0%Q)
              (mkStep [Float32.of_Z 4; Float32.of_Z 5] [true; true]
                 [{[ "score"%string := 4 ]}; ∅])).1 !! 1%nat
    = Some (Float32.add Float32.zero (Float32.of_Z 5)).
Proof.
  apply (proj1 terminal_without_info_is_no_completion
           (init 2 0%Q)
           (mkStep [Float32.of_Z 4; Float32.of_Z 5] [true; true]
              [{[ "score"%string := 4 ]}; ∅]) 1%nat).
  - intros b Hb. discriminate Hb.
  - reflexivity.
  - reflexivity.
  - reflexivity.
  - reflexivity.
  - reflexivity.
Defined.

End Training32.

(** ** Checkpoint cadence: [SavesModels] *)
Section Cadence.

Import SavesModels.

Lemma save_model_if_epoch_fired (self : t) (step_count : Z) :
  _next_save self ≤ step_count →
  save_model_if_epoch self step_count
  = {| _next_save := _next_save self + epoch_len self;
       epoch_len := epoch_len self;
       saved := saved self ++ [step_count] |}.
Proof.
  intros H. unfold save_model_if_epoch.
  by rewrite (proj2 (Z.leb_le _ _) H).
Qed.

Lemma save_model_if_epoch_idle (self : t) (step_count : Z) :
  step_count < _next_save self → save_model_if_epoch self step_count = self.
Proof.
  intros H. unfold save_model_if_epoch.
  by rewrite (proj2 (Z.leb_gt _ _) H).
Qed.

Lemma save_model_if_epoch_epoch_len (self : t) (step_count : Z) :
  epoch_len (save_model_if_epoch self step_count) = epoch_len self.
Proof. unfold save_model_if_epoch. by destruct (_ <=? _). Qed.

Lemma checks_monotone (step_counts : list Z) (self : t) :
  0 < epoch_len self → _next_save self ≤ _next_save (checks self step_counts).
Proof.
  revert self. induction step_counts as [|sc scs IH]; intros self He; [done|].
  change (checks self (sc :: scs)) with (checks (save_model_if_epoch self sc) scs).
  etrans; [|apply IH; by rewrite save_model_if_epoch_epoch_len].
  destruct (Z.le_gt_cases (_next_save self) sc) as [H|H].
  - rewrite save_model_if_epoch_fired by done. simpl. lia.
  - by rewrite save_model_if_epoch_idle by lia.
Qed.

(** C5: the checkpoint trigger. A check at a step count that has reached
    [next_save] saves once, at that step count, and moves [next_save]
    forward by [epoch_len]; a check at a step count below [next_save]
    changes nothing; with a positive [epoch_len] the threshold
    never decreases along a sequence of checks; and with [epoch_len] and
    [next_save] both 1000, the check at 999 changes nothing and the check
    at 1000 after it saves and leaves the threshold at 2000. *)
Theorem checkpoint_trigger :
  (∀ (self : t) (step_count : Z),
      (step_count >= _next_save self →
       save_model_if_epoch self step_count
       = {| _next_save := _next_save self + epoch_len self;
            epoch_len := epoch_len self;
            saved := saved self ++ [step_count] |})
      ∧ (step_count < _next_save self →
         save_model_if_epoch self step_count = self))
  ∧ (∀ (self : t) (step_counts : list Z),
      0 < epoch_len self →
      _next_save self ≤ _next_save (checks self step_counts))
  ∧ (∀ (log : list Z),
      let self := {| _next_save := 1000; epoch_len := 1000; saved := log |} in
      save_model_if_epoch self 999 = self
      ∧ save_model_if_epoch (save_model_if_epoch self 999) 1000
        = {| _next_save := 2000; epoch_len := 1000; saved := log ++ [1000] |}).
Proof.
  split; [|split].
  - intros self step_count. split; intros H.
    + apply save_model_if_epoch_fired. lia.
    + by apply save_model_if_epoch_idle.
  - intros self step_counts. apply checks_monotone.
  - intros log self. subst self. split; reflexivity.
Qed.

Lemma checkpoint_trigger_witness :
  0 < epoch_len (init 1000)
  ∧ _next_save (init 1000)
    ≤ _next_save (checks (init 1000) [0; 10; 999; 1000; 2500; 2600]).
Proof.
  split; [reflexivity|].
  apply (proj1 (proj2 checkpoint_trigger) (init 1000) [0; 10; 999; 1000; 2500; 2600]).
  reflexivity.
Defined.

(** *** Resume: [set_next_save] *)

Lemma fast_forward_frame (fuel : nat) (self s1 : t) (initial_count : Z) :
  fast_forward fuel self initial_count = Some s1 →
  initial_count < _next_save s1
  ∧ saved s1 = saved self ∧ epoch_len s1 = epoch_len self.
Proof.
  revert self. induction fuel as [|fuel IH]; intros self; simpl;
    destruct (Z.leb_spec (_next_save self) initial_count); try done.
  - intros [= <-]. done.
  - intros H1. by apply IH in H1.
  - intros [= <-]. done.
Qed.

(** With a positive [epoch_len] the loop ends, within as many iterations
    as there are steps between [next_save] and [initial_count]. *)
Lemma fast_forward_terminates (fuel : nat) (self : t) (initial_count : Z) :
  0 < epoch_len self →
  initial_count - _next_save self < Z.of_nat fuel →
  is_Some (fast_forward fuel self initial_count).
Proof.
  revert self. induction fuel as [|fuel IH]; intros self He Hf; simpl;
    destruct (Z.leb_spec (_next_save self) initial_count); try done; try lia.
  apply IH; simpl; lia.
Qed.

(** The result does not depend on the bound. *)
Lemma fast_forward_deterministic (fuel fuel' : nat) (self s1 s2 : t) (initial_count : Z) :
  fast_forward fuel self initial_count = Some s1 →
  fast_forward fuel' self initial_count = Some s2 → s1 = s2.
Proof.
  revert fuel' self. induction fuel as [|fuel IH]; intros [|fuel'] self; simpl;
    destruct (Z.leb_spec (_next_save self) initial_count); try congruence.
  apply IH.
Qed.

Lemma fast_forward_done (fuel : nat) (self : t) (initial_count : Z) :
  initial_count < _next_save self → fast_forward fuel self initial_count = Some self.
Proof.
  intros H. destruct fuel; simpl;
    by destruct (Z.leb_spec (_next_save self) initial_count); try lia.
Qed.

(** C6: resume fast-forward. With a positive [epoch_len],
    [set_next_save(initial_count)] returns; the state it leaves is the
    same whatever bound the loop is run under; a second call on that
    state leaves it as it is; the saver has not been called; and when
    [initial_count] is positive, [next_save] is beyond it. *)
Theorem set_next_save_idempotent (self : t) (initial_count : Z) :
  0 < epoch_len self →
  ∃ (fuel : nat) (s1 : t),
    set_next_save fuel self initial_count = Some s1
    ∧ (∀ (fuel' : nat) (s' : t),
          set_next_save fuel' self initial_count = Some s' → s' = s1)
    ∧ (∀ fuel' : nat, set_next_save fuel' s1 initial_count = Some s1)
    ∧ saved s1 = saved self
    ∧ epoch_len s1 = epoch_len self
    ∧ (0 < initial_count → initial_count < _next_save s1).
Proof.
  intros He. unfold set_next_save.
  destruct (Z.ltb_spec 0 initial_count) as [Hpos|Hneg].
  - set (fuel := Z.to_nat (initial_count - _next_save self + 1)).
    destruct (fast_forward_terminates fuel self initial_count He) as [s1 H1];
      [subst fuel; lia|].
    destruct (fast_forward_frame _ _ _ _ H1) as (Hgt & Hs & Hl).
    exists fuel, s1. repeat split; try done.
    + intros fuel' s' H'. symmetry. by eapply fast_forward_deterministic.
    + intros fuel'. by apply fast_forward_done.
  - exists 0%nat, self. repeat split; try done; try lia.
    by intros fuel' s' [= <-].
Qed.

Lemma set_next_save_idempotent_witness :
  ∃ (fuel : nat) (s1 : t),
    set_next_save fuel (init 1000) 2500 = Some s1
    ∧ (∀ (fuel' : nat) (s' : t),
          set_next_save fuel' (init 1000) 2500 = Some s' → s' = s1)
    ∧ (∀ fuel' : nat, set_next_save fuel' s1 2500 = Some s1)
    ∧ saved s1 = saved (init 1000)
    ∧ epoch_len s1 = epoch_len (init 1000)
    ∧ (0 < 2500 → 2500 < _next_save s1).
Proof. apply (set_next_save_idempotent (init 1000) 2500). reflexivity. Defined.

(** *** Degenerate cadence parameters *)

Lemma fast_forward_diverges (fuel : nat) (self : t) (initial_count : Z) :
  epoch_len self ≤ 0 → _next_save self ≤ initial_count →
  fast_forward fuel self initial_count = None.
Proof.
  revert self. induction fuel as [|fuel IH]; intros self He Hn; simpl;
    destruct (Z.leb_spec (_next_save self) initial_count); try done; try lia.
  apply IH; simpl; lia.
Qed.

Lemma checks_fire_always (step_counts : list Z) (self : t) :
  epoch_len self ≤ 0 →
  Forall (λ step_count, _next_save self ≤ step_count) step_counts →
  saved (checks self step_counts) = saved self ++ step_counts.
Proof.
  revert self. induction step_counts as [|sc scs IH]; intros self He Hs.
  { simpl. by rewrite app_nil_r. }
  apply Forall_cons in Hs as [Hsc Hs].
  change (checks self (sc :: scs)) with (checks (save_model_if_epoch self sc) scs).
  rewrite save_model_if_epoch_fired by done.
  rewrite IH; simpl; [by rewrite <- app_assoc|done|].
  eapply Forall_impl; [exact Hs|]. simpl. intros; lia.
Qed.

Lemma write_summaries_fires (self : WritesSummaries.t) (cur_time : Q) (step_count : Z) :
  (WritesSummaries.summary_frequency self < 0)%Q →
  (WritesSummaries._prev_summary_time self <= cur_time)%Q →
  WritesSummaries.write_summaries self cur_time step_count
  = {| WritesSummaries._prev_summary_time := cur_time;
       WritesSummaries.summary_frequency := WritesSummaries.summary_frequency self;
       WritesSummaries.written := WritesSummaries.written self ++ [step_count] |}.
Proof.
  intros Hf Ht. unfold WritesSummaries.write_summaries.
  destruct (Qle_bool _ _) eqn:E; [|done].
  apply Qle_bool_iff in E. lra.
Qed.

(** C8, as the code has it: no scheduler rejects a degenerate cadence
    parameter. With [epoch_len <= 0], [set_next_save(initial_count)] with
    a positive [initial_count] that [next_save] has not passed never
    returns, and [save_model_if_epoch] fires at every call whose step
    count has reached [next_save]; with a negative [summary_frequency],
    [write_summaries] fires at every call whose clock value is not
    before the previous summary time. *)
Theorem degenerate_cadence_unchecked :
  (∀ (self : t) (initial_count : Z) (fuel : nat),
      epoch_len self ≤ 0 → 0 < initial_count → _next_save self ≤ initial_count →
      set_next_save fuel self initial_count = None)
  ∧ (∀ (self : t) (step_counts : list Z),
      epoch_len self ≤ 0 →
      Forall (λ step_count, _next_save self ≤ step_count) step_counts →
      saved (checks self step_counts) = saved self ++ step_counts)
  ∧ (∀ (self : WritesSummaries.t) (cur_time : Q) (step_count : Z),
      (WritesSummaries.summary_frequency self < 0)%Q →
      (WritesSummaries._prev_summary_time self <= cur_time)%Q →
      WritesSummaries.written
        (WritesSummaries.write_summaries self cur_time step_count)
      = WritesSummaries.written self ++ [step_count]).
Proof.
  split; [|split].
  - intros self initial_count fuel He Hpos Hn. unfold set_next_save.
    rewrite (proj2 (Z.ltb_lt _ _) Hpos). by apply fast_forward_diverges.
  - intros self step_counts. apply checks_fire_always.
  - intros self cur_time step_count Hf Ht.
    by rewrite write_summaries_fires.
Qed.

Lemma degenerate_cadence_unchecked_witness :
  set_next_save 50 (init 0) 1 = None
  ∧ saved (checks (init (-1000)) [3; 4]) = saved (init (-1000)) ++ [3; 4]
  ∧ WritesSummaries.written
      (WritesSummaries.write_summaries
         {| WritesSummaries._prev_summary_time := 5%Q;
            WritesSummaries.summary_frequency := (-1)%Q;
            WritesSummaries.written := [] |} 5%Q 12)
    = [] ++ [12].
Proof.
  split; [|split].
  - apply (proj1 degenerate_cadence_unchecked (init 0) 1 50%nat); simpl; lia.
  - apply (proj1 (proj2 degenerate_cadence_unchecked) (init (-1000)) [3; 4]).
    + simpl. lia.
    + repeat constructor; simpl; lia.
  - apply (proj2 (proj2 degenerate_cadence_unchecked)
             {| WritesSummaries._prev_summary_time := 5%Q;
                WritesSummaries.summary_frequency := (-1)%Q;
                WritesSummaries.written := [] |} 5%Q 12).
    + reflexivity.
    + simpl. apply Qle_refl.
Defined.

(** C8, as the specification has it, fails: schedulers with a zero
    [epoch_len] and with a negative [summary_frequency] exist and are
    used; the first fires at each of three checks at the same step count
    and is still fast-forwarding after a thousand iterations, the second
    writes at each of two calls at the same clock value. *)
Lemma degenerate_cadence_counterexample :
  checks (init 0) [5; 5; 5]
  = {| _next_save := 0; epoch_len := 0; saved := [5; 5; 5] |}
  ∧ set_next_save 1000 (init 0) 1 = None
  ∧ WritesSummaries.write_summaries
      (WritesSummaries.write_summaries
         {| WritesSummaries._prev_summary_time := 0%Q;
            WritesSummaries.summary_frequency := (-1)%Q;
            WritesSummaries.written := [] |} 0%Q 1) 0%Q 2
    = {| WritesSummaries._prev_summary_time := 0%Q;
         WritesSummaries.summary_frequency := (-1)%Q;
         WritesSummaries.written := [1; 2] |}.
Proof. repeat split; vm_compute; reflexivity. Qed.

End Cadence.

(** ** Progress log: [LogsRewards.log_episode_results] *)
Section Progress.

Import LogsRewards.

Lemma truediv_nonzero (a b : Q) :
  ¬ (b == 0)%Q → truediv a b = Returned (a / b)%Q.
Proof.
  intros Hb. unfold truediv. destruct (Qeq_bool b 0) eqn:E; [|done].
  by apply Qeq_bool_iff in E.
Qed.

(** C9, as the code has it: [log_episode_results] returns the list of
    rewards it was given. On the empty list it logs nothing and returns
    the list, at every clock value, the one at which a division by the
    elapsed time would raise included. On a non-empty list, when the
    clock has moved since the start time, it logs exactly one line,
    which carries the mean of the rewards, and returns the list. *)
Theorem report_returns_its_rewards
    (self : t) (now : Q) (terminal_infos : list Info)
    (global_step_count : Z) (local_step_count : option Z)
    (rank : option Z) (initial_step_count : Z) :
  log_episode_results self now [] terminal_infos global_step_count
    local_step_count rank initial_step_count
  = (self, Returned [])
  ∧ ∀ terminal_rewards : list Z,
      terminal_rewards ≠ [] →
      ¬ (now == CountsRewards._start_time (counts self))%Q →
      log_episode_results self now terminal_rewards terminal_infos
        global_step_count local_step_count rank initial_step_count
      = ({| counts := counts self;
            logger := logger self ++
              [format rank global_step_count
                 (default global_step_count local_step_count)
                 initial_step_count (mean terminal_rewards)
                 (now - CountsRewards._start_time (counts self))] |},
         Returned terminal_rewards).
Proof.
  split; [done|]. intros [|r rs] Hne Hclock; [done|].
  unfold log_episode_results, format, info.
  set (delta_t := (now - CountsRewards._start_time (counts self))%Q).
  assert (¬ (delta_t == 0)%Q) as Hd by (subst delta_t; lra).
  destruct rank as [rank|]; by rewrite !truediv_nonzero.
Qed.

Lemma report_returns_its_rewards_witness :
  log_episode_results {| counts := CountsRewards.init 1 0%Q; logger := [] |}
    10%Q [1; 2] [] 100 (Some 100) None 0
  = ({| counts := CountsRewards.init 1 0%Q;
        logger := [] ++
          [format None 100 (default 100 (Some 100)) 0 (mean [1; 2])
             (10 - CountsRewards._start_time (CountsRewards.init 1 0%Q))] |},
     Returned [1; 2]).
Proof.
  apply (proj2 (report_returns_its_rewards
                  {| counts := CountsRewards.init 1 0%Q; logger := [] |}
                  10%Q [] 100 (Some 100) None 0) [1; 2]).
  - discriminate.
  - simpl. intros H. discriminate H.
Defined.

(** C9, as the specification has it, fails: the value returned for the
    rewards 1 and 2 is the list of the two, not their mean, and the value
    returned for no rewards is the empty list. *)
Lemma report_counterexample :
  (log_episode_results {| counts := CountsRewards.init 1 0%Q; logger := [] |}
     10%Q [1; 2] [] 100 (Some 100) None 0).2
  = Returned [1; 2]
  ∧ mean [1; 2] = (3 # 2)%Q
  ∧ (log_episode_results {| counts := CountsRewards.init 1 0%Q; logger := [] |}
       10%Q [] [] 100 (Some 100) None 0).2
    = Returned [].
Proof. repeat split; vm_compute; reflexivity. Qed.

End Progress.

(** ** Evaluation mode: [Evaluation.update_buffers] *)
Section EvaluationMode.

Import Evaluation.

(** [self.episode_reward_buffer[i] += rewards[i]] writes slot [i] of the
    buffer, or raises and writes nothing. *)
Lemma add_reward_spec (i : nat) (self : t) (rs : list Z) :
  rest (add_reward i self rs).1 = rest self
  ∧ episode_complete_statuses (add_reward i self rs).1
    = episode_complete_statuses self
  ∧ match buffer self !! i, rs !! i with
    | Some b, Some r =>
        (add_reward i self rs).2 = Returned ()
        ∧ buffer (add_reward i self rs).1 = <[i := b + r]> (buffer self)
    | _, _ =>
        (add_reward i self rs).2 = Raised IndexError
        ∧ buffer (add_reward i self rs).1 = buffer self
    end.
Proof.
  destruct self as [[n [b|] l st] ec sts];
    unfold add_reward, buffer, CountsRewards.buffer, rest; simpl;
    repeat case_match; simplify_eq/=; done.
Qed.

Lemma eval_buffer_length (self : t) :
  wf self → length (buffer self) = CountsRewards.nb_env (counts self).
Proof.
  intros [Hwf _]. unfold wf, buffer, CountsRewards.buffer,
    CountsRewards.episode_reward_buffer, CountsRewards.wf in *.
  destruct (CountsRewards._episode_reward_buffer (counts self)) as [b|]; simpl;
    [by apply Hwf|]. apply length_replicate.
Qed.

Lemma add_reward_wf (i : nat) (self : t) (rs : list Z) :
  wf self → wf (add_reward i self rs).1.
Proof.
  intros [Hb Hs].
  destruct self as [[n [b|] l st] ec sts];
    unfold add_reward, wf, CountsRewards.wf in *; simpl in *;
    repeat case_match; simplify_eq/=; split; try done;
    intros b' [= <-]; rewrite ?length_insert; unfold zeros;
    auto using length_replicate.
Qed.

(** Visiting slot [j] touches no other slot and none of the other
    attributes. *)
Lemma visit_frame (j : nat) (self : t) (c : step) :
  rest (visit j self c).1 = rest self
  ∧ ∀ i, i ≠ j →
      buffer (visit j self c).1 !! i = buffer self !! i
      ∧ episode_complete_statuses (visit j self c).1 !! i
        = episode_complete_statuses self !! i.
Proof.
  destruct (add_reward_spec j self (rewards c)) as (Hr & Hs & Hb).
  unfold visit.
  destruct (episode_complete_statuses self !! j) as [[|]|]; [done| |done].
  assert (∀ i, i ≠ j →
            buffer (add_reward j self (rewards c)).1 !! i = buffer self !! i)
    as Hother.
  { intros i Hi. destruct (buffer self !! j), (rewards c !! j);
      destruct Hb as [_ ->]; try done. by rewrite list_lookup_insert_ne. }
  assert (rest (add_reward j self (rewards c)).1 = rest self
          ∧ ∀ i, i ≠ j →
              buffer (add_reward j self (rewards c)).1 !! i = buffer self !! i
              ∧ episode_complete_statuses (add_reward j self (rewards c)).1 !! i
                = episode_complete_statuses self !! i) as Hadd.
  { split; [done|]. intros i Hi. rewrite Hs. auto. }
  destruct (terminals c !! j) as [[|]|]; [|done|done].
  destruct (infos c !! j) as [info|]; [|done].
  destruct (truthy info); [|done].
  destruct (add_reward j self (rewards c)) as [self' [[]|e]]; simpl in *;
    [|done].
  split; [done|]. intros i Hi. split; [by apply Hother|].
  rewrite list_lookup_insert_ne by done. by rewrite Hs.
Qed.

(** A slot whose status is true is left as it is by every visit. *)
Lemma visit_completed (j : nat) (self : t) (c : step) (i : nat) :
  episode_complete_statuses self !! i = Some true →
  buffer (visit j self c).1 !! i = buffer self !! i
  ∧ episode_complete_statuses (visit j self c).1 !! i = Some true.
Proof.
  intros Hi. destruct (decide (i = j)) as [->|Hne].
  - unfold visit. by rewrite Hi.
  - destruct (visit_frame j self c) as [_ H]. destruct (H i Hne) as [-> ->]. done.
Qed.

Lemma loop_rest (js : list nat) (self : t) (c : step) :
  rest (loop js self c).1 = rest self.
Proof.
  revert self. induction js as [|j js IH]; intros self; [done|]. simpl.
  pose proof (proj1 (visit_frame j self c)) as Hv.
  destruct (visit j self c) as [self' [[]|e]]; simpl in *; [|done].
  by rewrite IH.
Qed.

Lemma loop_completed (js : list nat) (self : t) (c : step) (i : nat) :
  episode_complete_statuses self !! i = Some true →
  buffer (loop js self c).1 !! i = buffer self !! i
  ∧ episode_complete_statuses (loop js self c).1 !! i = Some true.
Proof.
  revert self. induction js as [|j js IH]; intros self Hi; [done|]. simpl.
  destruct (visit_completed j self c i Hi) as [Hb Hs].
  destruct (visit j self c) as [self' [[]|e]]; simpl in *; [|done].
  destruct (IH self' Hs) as [-> ->]. done.
Qed.

Lemma update_buffers_completed (self : t) (c : step) (i : nat) :
  episode_complete_statuses self !! i = Some true →
  buffer (update_buffers self c).1 !! i = buffer self !! i
  ∧ episode_complete_statuses (update_buffers self c).1 !! i = Some true.
Proof. apply loop_completed. Qed.

Lemma updates_rest (calls : list step) (self : t) :
  rest (updates self calls) = rest self.
Proof.
  revert self. induction calls as [|c calls IH]; intros self; [done|].
  change (updates self (c :: calls)) with (updates (update_buffers self c).1 calls).
  rewrite IH. apply loop_rest.
Qed.


(** C10: the evaluation-mode ingest leaves [local_step_count] as it is.
    Along any sequence of calls of [Evaluation.update_buffers], returning
    or raising, [local_step_count], [nb_env], the start time and the
    episode count keep their values; whereas a call of the training-mode
    [update_buffers] that returns has advanced [local_step_count] by
    [nb_env]. *)
Theorem evaluation_keeps_local_step_count :
  (∀ (self : t) (calls : list step),
      CountsRewards._local_step_count (counts (updates self calls))
      = CountsRewards._local_step_count (counts self)
      ∧ rest (updates self calls) = rest self)
  ∧ (∀ (self : CountsRewards.t) (c : step) (out : list Z * list Info),
      (CountsRewards.update_buffers self c).2 = Returned out →
      CountsRewards._local_step_count (CountsRewards.update_buffers self c).1
      = CountsRewards._local_step_count self
        + Z.of_nat (CountsRewards.nb_env self)).
Proof.
  split.
  - intros self calls. pose proof (updates_rest calls self) as H.
    split; [|done]. unfold rest in H. by simplify_eq.
  - intros self c out. unfold CountsRewards.update_buffers.
    destruct self as [n [b|] l st]; simpl;
      destruct (CountsRewards.iadd _ _); simpl; try done;
      by destruct (CountsRewards.scan _ _ _).
Qed.

Lemma evaluation_keeps_local_step_count_witness :
  CountsRewards._local_step_count
    (CountsRewards.update_buffers (CountsRewards.init 2 0%Q)
       (mkStep [1; 2] [false; false] [∅; ∅])).1
  = CountsRewards._local_step_count (CountsRewards.init 2 0%Q)
    + Z.of_nat (CountsRewards.nb_env (CountsRewards.init 2 0%Q)).
Proof.
  apply (proj2 evaluation_keeps_local_step_count (CountsRewards.init 2 0%Q)
           (mkStep [1; 2] [false; false] [∅; ∅]) ([], [])).
  reflexivity.
Defined.

Lemma set_complete_wf (i : nat) (self : t) : wf self → wf (set_complete i self).
Proof. intros [Hb Hs]. split; [done|]. simpl. by rewrite length_insert. Qed.

(** Visiting slot [j] with vectors that reach it: the visit returns; a
    slot not yet complete receives the reward and takes the status the
    condition gives it. *)
Lemma visit_full (j : nat) (self : t) (c : step) :
  wf self → reaches j c →
  (j < CountsRewards.nb_env (counts self))%nat →
  (visit j self c).2 = Returned ()
  ∧ wf (visit j self c).1
  ∧ (episode_complete_statuses self !! j = Some false →
     buffer (visit j self c).1 !! j
     = Some (slot j (buffer self) + slot j (rewards c))
     ∧ episode_complete_statuses (visit j self c).1 !! j
       = Some (completing j c)).
Proof.
  intros Hwf (Hr & Ht & Hf) Hj.
  pose proof (eval_buffer_length self Hwf) as Hbl. pose proof Hwf as [_ Hsl].
  destruct (lookup_lt_is_Some_2 (episode_complete_statuses self) j) as [st Hst];
    [lia|].
  destruct (lookup_lt_is_Some_2 (buffer self) j) as [b Hb]; [lia|].
  destruct (lookup_lt_is_Some_2 (rewards c) j) as [r Hrj]; [lia|].
  destruct (lookup_lt_is_Some_2 (terminals c) j) as [d Hd]; [lia|].
  destruct (lookup_lt_is_Some_2 (infos c) j) as [f Hfj]; [lia|].
  destruct (add_reward_spec j self (rewards c)) as (_ & Hs & Ha).
  rewrite Hb, Hrj in Ha. destruct Ha as [Hret Hbuf].
  pose proof (add_reward_wf j self (rewards c) Hwf) as Hwfa.
  assert (buffer (add_reward j self (rewards c)).1 !! j
          = Some (slot j (buffer self) + slot j (rewards c))) as Hnew.
  { rewrite Hbuf, list_lookup_insert_eq by (by eapply lookup_lt_Some).
    unfold slot. by rewrite Hb, Hrj. }
  unfold visit, completing. rewrite Hst, Hd, Hfj.
  destruct st; [by split; [|split]|].
  destruct d; [destruct (truthy f)|].
  - destruct (add_reward j self (rewards c)) as [self' [[]|e]]; simplify_eq/=.
    split; [done|]. split; [by apply set_complete_wf|]. intros _.
    split; [done|]. apply list_lookup_insert_eq.
    rewrite Hs. by eapply lookup_lt_Some.
  - split; [done|]. split; [done|]. intros _. by rewrite Hs.
  - split; [done|]. split; [done|]. intros _. by rewrite Hs.
Qed.

(** The loop over distinct slots, with vectors that reach them all. *)
Lemma loop_full (js : list nat) (self : t) (c : step) :
  wf self → Forall (λ j, reaches j c) js →
  NoDup js → Forall (λ j, (j < CountsRewards.nb_env (counts self))%nat) js →
  (loop js self c).2 = Returned ()
  ∧ wf (loop js self c).1
  ∧ ∀ i,
      (i ∈ js → episode_complete_statuses self !! i = Some false →
       buffer (loop js self c).1 !! i
       = Some (slot i (buffer self) + slot i (rewards c))
       ∧ episode_complete_statuses (loop js self c).1 !! i
         = Some (completing i c))
      ∧ (i ∉ js →
         buffer (loop js self c).1 !! i = buffer self !! i
         ∧ episode_complete_statuses (loop js self c).1 !! i
           = episode_complete_statuses self !! i).
Proof.
  revert self. induction js as [|j js IH]; intros self Hwf Hfull Hnd Hjs.
  { split; [done|]. split; [done|]. intros i. split; [|done].
    intros Hi. by apply elem_of_nil in Hi. }
  apply NoDup_cons in Hnd as [Hj Hnd]. apply Forall_cons in Hjs as [Hjn Hjs].
  apply Forall_cons in Hfull as [Hjc Hfull].
  destruct (visit_full j self c Hwf Hjc Hjn) as (Hret & Hwf1 & Hat).
  destruct (visit_frame j self c) as [Hrest Hother].
  simpl. destruct (visit j self c) as [self1 [[]|e]]; simplify_eq/=.
  assert (CountsRewards.nb_env (counts self1) = CountsRewards.nb_env (counts self))
    as Hn by (unfold rest in Hrest; by simplify_eq).
  destruct (IH self1) as (Hret' & Hwf' & Hslots); try done; try by rewrite Hn.
  split; [done|]. split; [done|]. intros i. split.
  - intros Hi Hst. destruct (decide (i = j)) as [->|Hne].
    + destruct (Hslots j) as [_ Hout]. destruct (Hout Hj) as [-> ->].
      by apply Hat.
    + apply elem_of_cons in Hi as [?|Hi]; [done|].
      destruct (Hother i Hne) as [Hb1 Hs1].
      destruct (Hslots i) as [Hin _]. rewrite Hs1 in Hin.
      destruct (Hin Hi Hst) as [-> ->]. split; [|done].
      unfold slot. by rewrite Hb1.
  - intros Hi. apply not_elem_of_cons in Hi as [Hne Hi].
    destruct (Hslots i) as [_ Hout]. destruct (Hout Hi) as [-> ->].
    by apply Hother.
Qed.

(** A call with one entry per environment in each vector returns; every
    slot not yet complete receives its reward and takes the status the
    condition gives it. *)
Lemma eval_update_buffers_full (self : t) (c : step) :
  wf self → full (CountsRewards.nb_env (counts self)) c →
  (update_buffers self c).2 = Returned ()
  ∧ wf (update_buffers self c).1
  ∧ ∀ i, episode_complete_statuses self !! i = Some false →
      buffer (update_buffers self c).1 !! i
      = Some (slot i (buffer self) + slot i (rewards c))
      ∧ episode_complete_statuses (update_buffers self c).1 !! i
        = Some (completing i c).
Proof.
  intros Hwf Hfull. pose proof Hfull as (Hr & _ & _). pose proof Hwf as [_ Hsl].
  unfold update_buffers. rewrite Hr.
  destruct (loop_full (seq 0 (CountsRewards.nb_env (counts self))) self c)
    as (Hret & Hwf' & Hslots); try done.
  { apply Forall_seq. intros j Hj. destruct Hfull as (? & ? & ?).
    unfold reaches. lia. }
  { apply NoDup_seq. }
  { apply Forall_seq. intros; lia. }
  split; [done|]. split; [done|]. intros i Hst.
  apply Hslots; [|done]. apply elem_of_seq. apply lookup_lt_Some in Hst. lia.
Qed.





Lemma init_wf (n : nat) (clock : Q) : wf (init n clock).
Proof. split; [by intros b|]. simpl. apply length_replicate. Qed.


(** *** The same loop in [EvalContainer.run] *)

Lemma add_reward_sim (i : nat) (self : t) (rs : list Z) :
  EvalContainer.add_reward i (EvalContainer.of_evaluation self) rs
  = (EvalContainer.of_evaluation (add_reward i self rs).1,
     (add_reward i self rs).2).
Proof.
  destruct self as [[n [b|] l st] ec sts];
    unfold EvalContainer.add_reward, add_reward, EvalContainer.of_evaluation,
      buffer, CountsRewards.buffer; simpl;
    by repeat case_match.
Qed.

(** The body of the container's loop does to its locals what the body of
    [Evaluation.update_buffers] does to the buffer and the statuses. *)
Lemma visit_sim (j : nat) (self : t) (c : step) :
  EvalContainer.visit j (EvalContainer.of_evaluation self) c
  = (EvalContainer.of_evaluation (visit j self c).1, (visit j self c).2).
Proof.
  unfold EvalContainer.visit, visit. simpl.
  destruct (episode_complete_statuses self !! j) as [[|]|]; try done.
  pose proof (add_reward_sim j self (rewards c)) as Ha.
  destruct (terminals c !! j) as [[|]|]; try done.
  destruct (infos c !! j) as [info|]; try done.
  destruct (truthy info); try done.
  rewrite Ha. by destruct (add_reward j self (rewards c)) as [self' [[]|e]].
Qed.

Lemma loop_sim (js : list nat) (self : t) (c : step) :
  EvalContainer.loop js (EvalContainer.of_evaluation self) c
  = (EvalContainer.of_evaluation (loop js self c).1, (loop js self c).2).
Proof.
  revert self. induction js as [|j js IH]; intros self; [done|]. simpl.
  rewrite visit_sim. destruct (visit j self c) as [self' [[]|e]]; simpl; [|done].
  apply IH.
Qed.









(** *** [EvalContainer.run]: the passes of an epoch *)

(** C2 fails on the code: [reward_buf] is zeroed once per epoch, before
    the loop over the networks, and only [episode_completes] is renewed
    for each network. With one environment and two networks, the first
    earning 5 and the second 1 in their only step, the second pass takes
    its mean from a buffer holding 6, where a pass started on a zeroed
    buffer has 1; and the epoch selects the second network, with 6 as its
    mean. *)
Theorem second_pass_keeps_first_pass_rewards :
  EvalContainer.epoch 1
    [[mkStep [5] [true] [{[ "score"%string := 5 ]}]];
     [mkStep [1] [true] [{[ "score"%string := 1 ]}]]]
  = Some (Returned
            [{| EvalContainer.snapshot := [5];
                EvalContainer.mean_reward := (5 # 1)%Q |};
             {| EvalContainer.snapshot := [6];
                EvalContainer.mean_reward := (6 # 1)%Q |}])
  ∧ EvalContainer.pass 1 (zeros 1)
      [mkStep [1] [true] [{[ "score"%string := 1 ]}]]
    = Some ([1], Returned {| EvalContainer.snapshot := [1];
                             EvalContainer.mean_reward := (1 # 1)%Q |})
  ∧ EvalContainer.selected 1
      [[mkStep [5] [true] [{[ "score"%string := 5 ]}]];
       [mkStep [1] [true] [{[ "score"%string := 1 ]}]]]
    = Some (Returned (Some ((6 # 1)%Q, 1%nat))).
Proof. repeat split; vm_compute; reflexivity. Qed.

(** The scenario of the specification: two environments, three steps. *)
Example evaluation_scenario :
  run [mkStep [1; 1] [false; false] [∅; ∅];
       mkStep [2; 3] [true; false] [{[ "score"%string := 3 ]}; ∅];
       mkStep [0; 5] [false; true] [∅; {[ "score"%string := 9 ]}]]
      (init 2 0%Q)
  = Some ({| counts := {| CountsRewards.nb_env := 2;
                          CountsRewards._episode_reward_buffer := Some [3; 9];
                          CountsRewards._local_step_count := 0;
                          CountsRewards._start_time := 0%Q |};
             _episode_count := 0;
             episode_complete_statuses := [true; true] |},
          Returned (12 # 2)%Q).
Proof. vm_compute. reflexivity. Qed.

(** *** Vectors of the wrong length *)




(** A rewards vector shorter than the batch, reached by the other two:
    the call returns, and the slots beyond it are not visited. *)
Lemma eval_update_buffers_short (self : t) (c : step) :
  wf self →
  (length (rewards c) ≤ CountsRewards.nb_env (counts self))%nat →
  (length (rewards c) ≤ length (terminals c))%nat →
  (length (rewards c) ≤ length (infos c))%nat →
  (update_buffers self c).2 = Returned ()
  ∧ ∀ i, (length (rewards c) ≤ i)%nat →
      buffer (update_buffers self c).1 !! i = buffer self !! i
      ∧ episode_complete_statuses (update_buffers self c).1 !! i
        = episode_complete_statuses self !! i.
Proof.
  intros Hwf Hn Ht Hf. unfold update_buffers.
  destruct (loop_full (seq 0 (length (rewards c))) self c)
    as (Hret & _ & Hslots); try done.
  { apply Forall_seq. intros j Hj. unfold reaches. lia. }
  { apply NoDup_seq. }
  { apply Forall_seq. intros; lia. }
  split; [done|]. intros i Hi. apply Hslots.
  rewrite elem_of_seq. lia.
Qed.




End EvaluationMode.

(** * Further properties of the code *)

(** ** Checkpoint cadence along a run *)
Section CadenceRun.

Import SavesModels.

Lemma fast_forward_grid (fuel : nat) (self s1 : t) (initial_count : Z) :
  0 < epoch_len self →
  _next_save self ≤ initial_count →
  fast_forward fuel self initial_count = Some s1 →
  _next_save s1
  = _next_save self
    + epoch_len self * ((initial_count - _next_save self) / epoch_len self + 1).
Proof.
  revert self. induction fuel as [|fuel IH]; intros self He Hn; simpl;
    destruct (Z.leb_spec (_next_save self) initial_count); try done; try lia.
  intros H1.
  destruct (Z.le_gt_cases (_next_save self + epoch_len self) initial_count)
    as [Hle|Hgt].
  - apply IH in H1; [|done|simpl; lia]. simpl in H1. rewrite H1.
    replace (initial_count - _next_save self)
      with ((initial_count - (_next_save self + epoch_len self))
            + 1 * epoch_len self) by lia.
    rewrite Z.div_add by lia. lia.
  - rewrite fast_forward_done in H1 by (simpl; lia). simplify_eq/=.
    rewrite Z.div_small by lia. lia.
Qed.

(** Resume lands on the grid of thresholds: with a positive [epoch_len]
    and a positive [initial_count] that [next_save] has not passed,
    [set_next_save] returns, whatever bound it returns under it leaves
    the same state, and in that state [next_save] is the first of the
    thresholds [next_save + k * epoch_len] beyond [initial_count]; it is
    at most [epoch_len] beyond it. On a new object this is
    [epoch_len * (initial_count / epoch_len + 1)]. *)
Theorem set_next_save_closed_form (self : t) (initial_count : Z) :
  0 < epoch_len self → 0 < initial_count → _next_save self ≤ initial_count →
  ∃ (fuel : nat) (s1 : t),
    set_next_save fuel self initial_count = Some s1
    ∧ (∀ (fuel' : nat) (s' : t),
          set_next_save fuel' self initial_count = Some s' → s' = s1)
    ∧ _next_save s1
      = _next_save self
        + epoch_len self
          * ((initial_count - _next_save self) / epoch_len self + 1)
    ∧ initial_count < _next_save s1 ≤ initial_count + epoch_len self
    ∧ (_next_save self = 0 →
       _next_save s1 = epoch_len self * (initial_count / epoch_len self + 1)).
Proof.
  intros He Hpos Hn. unfold set_next_save.
  rewrite (proj2 (Z.ltb_lt _ _) Hpos).
  set (fuel := Z.to_nat (initial_count - _next_save self + 1)).
  destruct (fast_forward_terminates fuel self initial_count He) as [s1 H1];
    [subst fuel; lia|].
  exists fuel, s1. split; [done|].
  split; [intros fuel' s' H'; symmetry; by eapply fast_forward_deterministic|].
  pose proof (fast_forward_grid _ _ _ _ He Hn H1) as Hgrid.
  split; [done|]. split.
  - rewrite Hgrid.
    pose proof (Z.mul_div_le (initial_count - _next_save self) (epoch_len self) He).
    pose proof (Z.mul_succ_div_gt (initial_count - _next_save self)
                  (epoch_len self) He).
    lia.
  - intros H0. rewrite Hgrid, H0, Z.sub_0_r. lia.
Qed.

Lemma set_next_save_closed_form_witness :
  ∃ (fuel : nat) (s1 : t),
    set_next_save fuel (init 1000) 2500 = Some s1
    ∧ (∀ (fuel' : nat) (s' : t),
          set_next_save fuel' (init 1000) 2500 = Some s' → s' = s1)
    ∧ _next_save s1
      = _next_save (init 1000)
        + epoch_len (init 1000)
          * ((2500 - _next_save (init 1000)) / epoch_len (init 1000) + 1)
    ∧ 2500 < _next_save s1 ≤ 2500 + epoch_len (init 1000)
    ∧ (_next_save (init 1000) = 0 →
       _next_save s1 = epoch_len (init 1000) * (2500 / epoch_len (init 1000) + 1)).
Proof.
  apply (set_next_save_closed_form (init 1000) 2500).
  - reflexivity.
  - reflexivity.
  - simpl. lia.
Defined.

Lemma checks_idle (step_counts : list Z) (self : t) :
  Forall (λ step_count, step_count < _next_save self) step_counts →
  checks self step_counts = self.
Proof.
  induction step_counts as [|sc scs IH]; intros Hs; [done|].
  apply Forall_cons in Hs as [Hsc Hs].
  change (checks self (sc :: scs)) with (checks (save_model_if_epoch self sc) scs).
  rewrite save_model_if_epoch_idle by done. by apply IH.
Qed.

(** After a resume at a positive [initial_count], no check at a step
    count up to [initial_count] saves anything: the steps done before
    the restart are not saved again. *)
Theorem resume_does_not_save_again (fuel : nat) (self s1 : t) (initial_count : Z)
    (step_counts : list Z) :
  0 < initial_count →
  set_next_save fuel self initial_count = Some s1 →
  Forall (λ step_count, step_count ≤ initial_count) step_counts →
  checks s1 step_counts = s1 ∧ saved s1 = saved self.
Proof.
  intros Hpos. unfold set_next_save. rewrite (proj2 (Z.ltb_lt _ _) Hpos).
  intros H1 Hs. apply fast_forward_frame in H1 as (Hgt & Hsaved & _).
  split; [|done]. apply checks_idle.
  eapply Forall_impl; [exact Hs|]. simpl. intros; lia.
Qed.

Lemma resume_does_not_save_again_witness :
  checks {| _next_save := 3000; epoch_len := 1000; saved := [] |} [0; 1000; 2500]
  = {| _next_save := 3000; epoch_len := 1000; saved := [] |}
  ∧ saved {| _next_save := 3000; epoch_len := 1000; saved := [] |}
    = saved (init 1000).
Proof.
  apply (resume_does_not_save_again 10 (init 1000)
           {| _next_save := 3000; epoch_len := 1000; saved := [] |} 2500
           [0; 1000; 2500]).
  - reflexivity.
  - reflexivity.
  - repeat constructor; simpl; lia.
Defined.

(** Along any sequence of checks the saver is handed, in order, some of
    the step counts checked; [next_save] has moved by [epoch_len] once
    for each of them; and the save number [k], counted from zero, is at
    a step count that has reached the threshold [next_save + k *
    epoch_len]. *)
Theorem checks_save_on_the_grid (step_counts : list Z) (self : t) :
  ∃ fired : list Z,
    fired `sublist_of` step_counts
    ∧ saved (checks self step_counts) = saved self ++ fired
    ∧ epoch_len (checks self step_counts) = epoch_len self
    ∧ _next_save (checks self step_counts)
      = _next_save self + Z.of_nat (length fired) * epoch_len self
    ∧ ∀ (k : nat) (step_count : Z),
        fired !! k = Some step_count →
        _next_save self + Z.of_nat k * epoch_len self ≤ step_count.
Proof.
  revert self. induction step_counts as [|sc scs IH]; intros self.
  { exists []. simpl. rewrite app_nil_r. repeat split; try done; lia. }
  change (checks self (sc :: scs)) with (checks (save_model_if_epoch self sc) scs).
  destruct (IH (save_model_if_epoch self sc)) as (fired & Hsub & Hsaved & He & Hn & Hk).
  destruct (Z.le_gt_cases (_next_save self) sc) as [H|H].
  - rewrite save_model_if_epoch_fired in * by done. simpl in *.
    exists (sc :: fired). repeat split.
    + by apply sublist_skip.
    + by rewrite Hsaved, <- app_assoc.
    + done.
    + rewrite Hn, length_cons. lia.
    + intros [|k] s Hs; simplify_eq/=; [lia|].
      apply Hk in Hs. lia.
  - rewrite save_model_if_epoch_idle in * by lia.
    exists fired. repeat split; try done. by apply sublist_cons.
Qed.

End CadenceRun.

(** ** The evaluation driver: [Evaluation.run] *)
Section EvaluationRun.

Import Evaluation.

Lemma visit_wf (j : nat) (self : t) (c : step) : wf self → wf (visit j self c).1.
Proof.
  intros Hwf. pose proof (add_reward_wf j self (rewards c) Hwf) as Ha.
  unfold visit. repeat case_match; simplify_eq/=; try done.
  by apply set_complete_wf.
Qed.

Lemma loop_wf (js : list nat) (self : t) (c : step) :
  wf self → wf (loop js self c).1.
Proof.
  revert self. induction js as [|j js IH]; intros self Hwf; [done|]. simpl.
  pose proof (visit_wf j self c Hwf) as Hv.
  destruct (visit j self c) as [self' [[]|e]]; simpl in *; [|done].
  by apply IH.
Qed.

Lemma updates_shape (calls : list step) (self : t) :
  wf self →
  wf (updates self calls)
  ∧ length (buffer (updates self calls)) = CountsRewards.nb_env (counts self)
  ∧ length (episode_complete_statuses (updates self calls))
    = CountsRewards.nb_env (counts self).
Proof.
  intros Hwf.
  assert (wf (updates self calls)) as Hwf'.
  { revert self Hwf. induction calls as [|c calls IH]; intros self Hwf; [done|].
    change (updates self (c :: calls)) with (updates (update_buffers self c).1 calls).
    apply IH. by apply loop_wf. }
  pose proof (updates_rest calls self) as Hrest.
  assert (CountsRewards.nb_env (counts (updates self calls))
          = CountsRewards.nb_env (counts self)) as Hn
    by (unfold rest in Hrest; by simplify_eq).
  split; [done|]. rewrite <- Hn. split; [by apply eval_buffer_length|].
  by destruct Hwf'.
Qed.

(** Whatever the vectors of the calls, and whether they return or raise,
    the buffer and the statuses keep one entry per environment. *)
Theorem updates_keep_shape (calls : list step) (self : t) :
  wf self →
  wf (updates self calls)
  ∧ length (buffer (updates self calls)) = CountsRewards.nb_env (counts self)
  ∧ length (episode_complete_statuses (updates self calls))
    = CountsRewards.nb_env (counts self).
Proof. apply updates_shape. Qed.

Lemma updates_keep_shape_witness :
  wf (updates (init 2 0%Q) [mkStep [1; 2; 3] [true] []; mkStep [] [] []])
  ∧ length (buffer (updates (init 2 0%Q)
                      [mkStep [1; 2; 3] [true] []; mkStep [] [] []]))
    = CountsRewards.nb_env (counts (init 2 0%Q))
  ∧ length (episode_complete_statuses
              (updates (init 2 0%Q) [mkStep [1; 2; 3] [true] []; mkStep [] [] []]))
    = CountsRewards.nb_env (counts (init 2 0%Q)).
Proof.
  apply (updates_keep_shape [mkStep [1; 2; 3] [true] []; mkStep [] [] []]
           (init 2 0%Q)).
  split.
  - intros b Hb. discriminate Hb.
  - reflexivity.
Defined.

(** [run] returns on the state reached by the answers it has taken,
    which are the fewest after which every status is true; what it
    returns is the mean of the buffer then. *)
Lemma run_returned (answers : list step) (self s' : t) (m : Q) :
  run answers self = Some (s', Returned m) →
  ∃ k : nat,
    (k ≤ length answers)%nat
    ∧ s' = updates self (take k answers)
    ∧ all (episode_complete_statuses s') = true
    ∧ m = mean (buffer s')
    ∧ ∀ j : nat, (j < k)%nat →
        all (episode_complete_statuses (updates self (take j answers))) = false.
Proof.
  revert self. induction answers as [|c answers IH]; intros self; simpl;
    destruct (all (episode_complete_statuses self)) eqn:Hall; try done.
  - intros [= <- <-]. exists 0%nat. repeat split; try done. intros; lia.
  - intros [= <- <-]. exists 0%nat. repeat split; try done; [lia|]. intros; lia.
  - destruct (update_buffers self c) as [self1 [[]|e]] eqn:Hu; [|done].
    intros Hrun. apply IH in Hrun as (k & Hk & Hs & Hall' & Hm & Hmin).
    exists (S k). simpl.
    change (updates self (c :: take k answers))
      with (updates (update_buffers self c).1 (take k answers)).
    rewrite Hu. simpl. repeat split; try done; [lia|].
    intros [|j] Hj; [done|]. simpl.
    change (updates self (c :: take j answers))
      with (updates (update_buffers self c).1 (take j answers)).
    rewrite Hu. apply Hmin. lia.
Qed.

(** The status of a slot after calls with one entry per environment:
    true when it was, or when one of the calls completes the slot. *)
Lemma updates_status (calls : list step) (self : t) (i : nat) (st : bool) :
  wf self →
  Forall (full (CountsRewards.nb_env (counts self))) calls →
  episode_complete_statuses self !! i = Some st →
  episode_complete_statuses (updates self calls) !! i
  = Some (st || existsb (completing i) calls).
Proof.
  revert self st. induction calls as [|c calls IH]; intros self st Hwf Hfull Hst.
  { simpl. by rewrite orb_false_r. }
  apply Forall_cons in Hfull as [Hc Hfull].
  change (updates self (c :: calls)) with (updates (update_buffers self c).1 calls).
  destruct (eval_update_buffers_full self c Hwf Hc) as (_ & Hwf1 & Hslots).
  pose proof (loop_rest (seq 0 (length (rewards c))) self c) as Hrest.
  fold (update_buffers self c) in Hrest.
  assert (CountsRewards.nb_env (counts (update_buffers self c).1)
          = CountsRewards.nb_env (counts self)) as Hn
    by (unfold rest in Hrest; by simplify_eq).
  destruct st.
  - destruct (update_buffers_completed self c i Hst) as [_ Hs1].
    by rewrite (IH _ true Hwf1) by (by rewrite ?Hn).
  - destruct (Hslots i Hst) as [_ Hs1].
    by rewrite (IH _ _ Hwf1 ltac:(by rewrite Hn) Hs1).
Qed.




(** [run] stops as soon as every status is true: when it returns, it has
    taken the fewest answers after which every slot is complete, every
    status is true, and the score is the mean of the buffer; and a
    second [run] on the object it leaves takes no answer and returns the
    same score. *)
Theorem run_stops_when_all_complete (answers : list step) (self s' : t) (m : Q) :
  run answers self = Some (s', Returned m) →
  (∃ k : nat,
      (k ≤ length answers)%nat
      ∧ s' = updates self (take k answers)
      ∧ ∀ j : nat, (j < k)%nat →
          all (episode_complete_statuses (updates self (take j answers))) = false)
  ∧ all (episode_complete_statuses s') = true
  ∧ m = mean (buffer s')
  ∧ ∀ answers' : list step, run answers' s' = Some (s', Returned m).
Proof.
  intros Hrun. apply run_returned in Hrun as (k & Hk & Hs & Hall & Hm & Hmin).
  split; [by exists k|]. split; [done|]. split; [done|].
  intros answers'. destruct answers'; simpl; by rewrite Hall, Hm.
Qed.

Lemma run_stops_when_all_complete_witness :
  (∃ k : nat,
      (k ≤ 2)%nat
      ∧ updates (init 1 0%Q) [mkStep [4] [true] [{[ "score"%string := 4 ]}]]
        = updates (init 1 0%Q)
            (take k [mkStep [4] [true] [{[ "score"%string := 4 ]}];
                     mkStep [5] [true] [{[ "score"%string := 5 ]}]])
      ∧ ∀ j : nat, (j < k)%nat →
          all (episode_complete_statuses
                 (updates (init 1 0%Q)
                    (take j [mkStep [4] [true] [{[ "score"%string := 4 ]}];
                             mkStep [5] [true] [{[ "score"%string := 5 ]}]])))
          = false)
  ∧ all (episode_complete_statuses
           (updates (init 1 0%Q) [mkStep [4] [true] [{[ "score"%string := 4 ]}]]))
    = true
  ∧ (4 # 1)%Q
    = mean (buffer (updates (init 1 0%Q)
                      [mkStep [4] [true] [{[ "score"%string := 4 ]}]]))
  ∧ ∀ answers' : list step,
      run answers'
        (updates (init 1 0%Q) [mkStep [4] [true] [{[ "score"%string := 4 ]}]])
      = Some (updates (init 1 0%Q) [mkStep [4] [true] [{[ "score"%string := 4 ]}]],
              Returned (4 # 1)%Q).
Proof.
  apply (run_stops_when_all_complete
           [mkStep [4] [true] [{[ "score"%string := 4 ]}];
            mkStep [5] [true] [{[ "score"%string := 5 ]}]]
           (init 1 0%Q)).
  vm_compute. reflexivity.
Defined.

(** [run] returns when the environment lets it: if the answers have one
    entry per environment in each vector and every slot meets a true
    terminal flag with a non-empty info at one of them, [run] on a new
    evaluation returns a score. *)
Theorem run_returns (n : nat) (clock : Q) (answers : list step) :
  Forall (full n) answers →
  (∀ i : nat, (i < n)%nat → existsb (completing i) answers = true) →
  ∃ (s' : t) (m : Q), run answers (init n clock) = Some (s', Returned m).
Proof.
  intros Hfull Hlive.
  assert (Hgen : ∀ self, wf self → CountsRewards.nb_env (counts self) = n →
            all (episode_complete_statuses (updates self answers)) = true →
            ∃ s' m, run answers self = Some (s', Returned m)).
  { clear Hlive. induction Hfull as [|c answers Hc Hfull IH];
      intros self Hwf Hn Hall.
    - change (updates self []) with self in Hall. simpl. rewrite Hall. eauto.
    - simpl. destruct (all (episode_complete_statuses self)); [eauto|].
      change (updates self (c :: answers))
        with (updates (update_buffers self c).1 answers) in Hall.
      destruct (eval_update_buffers_full self c Hwf) as (Hret & Hwf1 & _);
        [by rewrite Hn|].
      pose proof (loop_rest (seq 0 (length (rewards c))) self c) as Hrest.
      fold (update_buffers self c) in Hrest.
      assert (CountsRewards.nb_env (counts (update_buffers self c).1) = n) as Hn1
        by (unfold rest in Hrest; by simplify_eq).
      destruct (update_buffers self c) as [self1 [[]|e]]; simplify_eq/=.
      by apply IH. }
  apply Hgen; [apply init_wf|done|].
  unfold all. apply forallb_forall. intros b Hb.
  apply list_elem_of_In, list_elem_of_lookup in Hb as [i Hb].
  pose proof (lookup_lt_Some _ _ _ Hb) as Hi.
  destruct (updates_shape answers (init n clock) (init_wf n clock))
    as (_ & _ & Hlen).
  rewrite Hlen in Hi. simpl in Hi.
  rewrite (updates_status answers (init n clock) i false) in Hb;
    [|apply init_wf|done|by apply lookup_replicate_2].
  rewrite (Hlive i Hi) in Hb. by simplify_eq/=.
Qed.

Lemma run_returns_witness :
  ∃ (s' : t) (m : Q),
    run [mkStep [1; 1] [false; false] [∅; ∅];
         mkStep [2; 3] [true; false] [{[ "score"%string := 3 ]}; ∅];
         mkStep [0; 5] [false; true] [∅; {[ "score"%string := 9 ]}]]
        (init 2 0%Q)
    = Some (s', Returned m).
Proof.
  apply (run_returns 2 0%Q).
  - repeat constructor.
  - intros [|[|i]] Hi; [vm_compute; reflexivity..|lia].
Defined.




(** *** [EvalContainer.run] against [Evaluation] *)

(** The loop of [EvalContainer.run] and [Evaluation.update_buffers] are
    the same function of the buffer and the statuses when the rewards
    vector has one entry per environment: the same slots are written and
    the same exception, if any, is raised. *)
Theorem container_ingest_is_update_buffers (n : nat) (self : t) (c : step) :
  length (rewards c) = n →
  EvalContainer.ingest n (EvalContainer.of_evaluation self) c
  = (EvalContainer.of_evaluation (update_buffers self c).1,
     (update_buffers self c).2).
Proof.
  intros Hn. unfold EvalContainer.ingest, update_buffers.
  by rewrite loop_sim, Hn.
Qed.

Lemma container_ingest_is_update_buffers_witness :
  EvalContainer.ingest 2 (EvalContainer.of_evaluation (init 2 0%Q))
    (mkStep [2; 3] [true; false] [{[ "score"%string := 3 ]}; ∅])
  = (EvalContainer.of_evaluation
       (update_buffers (init 2 0%Q)
          (mkStep [2; 3] [true; false] [{[ "score"%string := 3 ]}; ∅])).1,
     (update_buffers (init 2 0%Q)
        (mkStep [2; 3] [true; false] [{[ "score"%string := 3 ]}; ∅])).2).
Proof.
  apply (container_ingest_is_update_buffers 2 (init 2 0%Q)
           (mkStep [2; 3] [true; false] [{[ "score"%string := 3 ]}; ∅])).
  reflexivity.
Defined.

Lemma loop_app (js1 js2 : list nat) (self : t) (c : step) :
  loop (js1 ++ js2) self c
  = match loop js1 self c with
    | (self', Returned _) => loop js2 self' c
    | r => r
    end.
Proof.
  revert self. induction js1 as [|j js1 IH]; intros self; [done|]. simpl.
  destruct (visit j self c) as [self' [[]|e]]; [apply IH|done].
Qed.

(** Where the two loops differ: the container visits every slot of the
    batch. On a rewards vector shorter than the batch, with [terminals]
    and [infos] of the batch size, it raises [IndexError] when the first
    slot the rewards do not reach is not complete, where
    [Evaluation.update_buffers] returns. *)
Theorem container_ingest_short_rewards (self : t) (c : step) :
  wf self →
  (length (rewards c) < CountsRewards.nb_env (counts self))%nat →
  length (terminals c) = CountsRewards.nb_env (counts self) →
  length (infos c) = CountsRewards.nb_env (counts self) →
  episode_complete_statuses self !! length (rewards c) = Some false →
  (EvalContainer.ingest (CountsRewards.nb_env (counts self))
     (EvalContainer.of_evaluation self) c).2 = Raised IndexError
  ∧ (update_buffers self c).2 = Returned ().
Proof.
  intros Hwf Hlt Ht Hf Hst.
  set (n := CountsRewards.nb_env (counts self)) in *.
  set (m := length (rewards c)) in *.
  destruct (eval_update_buffers_short self c Hwf) as [Hret Hframe];
    [fold n m; lia..|].
  split; [|done].
  unfold EvalContainer.ingest. rewrite loop_sim. simpl.
  replace (seq 0 n) with (seq 0 m ++ m :: seq (S m) (n - S m)).
  2:{ replace n with (m + S (n - S m))%nat at 2 by lia.
      by rewrite seq_app. }
  rewrite loop_app. unfold update_buffers in Hret, Hframe. fold m in Hret, Hframe.
  destruct (Hframe m) as [_ Hs]; [lia|]. rewrite Hst in Hs.
  destruct (loop (seq 0 m) self c) as [self1 [[]|e]]; simplify_eq/=.
  unfold visit. rewrite Hs.
  destruct (lookup_lt_is_Some_2 (terminals c) m) as [d ->]; [lia|].
  destruct (add_reward_spec m self1 (rewards c)) as (_ & _ & Ha).
  rewrite (lookup_ge_None_2 (rewards c) m) in Ha by (subst m; lia).
  assert ((add_reward m self1 (rewards c)).2 = Raised IndexError) as Hadd
    by (destruct (buffer self1 !! m); by destruct Ha).
  destruct d; [|by destruct (add_reward m self1 (rewards c)); simplify_eq/=].
  destruct (lookup_lt_is_Some_2 (infos c) m) as [f ->]; [lia|].
  destruct (truthy f);
    by destruct (add_reward m self1 (rewards c)); simplify_eq/=.
Qed.

Lemma container_ingest_short_rewards_witness :
  (EvalContainer.ingest (CountsRewards.nb_env (counts (init 2 0%Q)))
     (EvalContainer.of_evaluation (init 2 0%Q))
     (mkStep [1] [false; false] [∅; ∅])).2 = Raised IndexError
  ∧ (update_buffers (init 2 0%Q) (mkStep [1] [false; false] [∅; ∅])).2
    = Returned ().
Proof.
  apply (container_ingest_short_rewards (init 2 0%Q)
           (mkStep [1] [false; false] [∅; ∅])).
  - apply init_wf.
  - simpl. lia.
  - reflexivity.
  - reflexivity.
  - reflexivity.
Defined.








(** *** The selection among the networks of an epoch *)

Lemma select_from (reports : list EvalContainer.report) (k0 kb : nat) (m0 : Q) :
  ∃ (m : Q) (k : nat),
    EvalContainer.select (Some (m0, kb)) k0 reports = Some (m, k)
    ∧ ((m = m0 ∧ k = kb
        ∧ ∀ j r', reports !! j = Some r' → (EvalContainer.mean_reward r' < m0)%Q)
       ∨ (∃ j r,
             k = (k0 + j)%nat ∧ reports !! j = Some r
             ∧ m = EvalContainer.mean_reward r ∧ (m0 <= m)%Q
             ∧ (∀ j' r', reports !! j' = Some r' →
                  (EvalContainer.mean_reward r' <= m)%Q)
             ∧ (∀ j' r', (j < j')%nat → reports !! j' = Some r' →
                  (EvalContainer.mean_reward r' < m)%Q))).
Proof.
  revert k0 kb m0. induction reports as [|r rs IH]; intros k0 kb m0.
  { exists m0, kb. split; [done|]. left. by repeat split. }
  cbn [EvalContainer.select].
  destruct (Qle_bool m0 (EvalContainer.mean_reward r)) eqn:E.
  - apply Qle_bool_iff in E.
    destruct (IH (S k0) k0 (EvalContainer.mean_reward r))
      as (m & k & Hsel & [(-> & -> & Hlt)|(j & r1 & -> & Hj & -> & Hle & Hmax & Hlast)]).
    + exists (EvalContainer.mean_reward r), k0. split; [done|]. right.
      exists 0%nat, r. repeat split; try done; try lia.
      * intros [|j'] r' Hj'; simplify_eq/=; [lra|].
        apply Hlt in Hj'. lra.
      * intros [|j'] r' Hlt' Hj'; [lia|]. simpl in Hj'. by apply Hlt in Hj'.
    + exists (EvalContainer.mean_reward r1), (S k0 + j)%nat. split; [done|].
      right. exists (S j), r1. repeat split; try done; try lia; try lra.
      * intros [|j'] r' Hj'; simplify_eq/=; [lra|]. by eapply Hmax.
      * intros [|j'] r' Hlt' Hj'; [lia|]. simpl in Hj'.
        eapply Hlast; [|done]. lia.
  - assert (EvalContainer.mean_reward r < m0)%Q as Hr.
    { apply Qnot_le_lt. intros H. apply Qle_bool_iff in H. congruence. }
    destruct (IH (S k0) kb m0)
      as (m & k & Hsel & [(-> & -> & Hlt)|(j & r1 & -> & Hj & -> & Hle & Hmax & Hlast)]).
    + exists m0, kb. split; [done|]. left. repeat split; try done.
      intros [|j'] r' Hj'; simplify_eq/=; [done|]. by eapply Hlt.
    + exists (EvalContainer.mean_reward r1), (S k0 + j)%nat. split; [done|].
      right. exists (S j), r1. repeat split; try done; try lia; try lra.
      * intros [|j'] r' Hj'; simplify_eq/=; [lra|]. by eapply Hmax.
      * intros [|j'] r' Hlt' Hj'; [lia|]. simpl in Hj'.
        eapply Hlast; [|done]. lia.
Qed.

(** Which network an epoch selects: none when the epoch has no network;
    otherwise one whose mean no other exceeds, and the last of those:
    every network after it has a strictly smaller mean. *)
Theorem select_takes_last_maximum (reports : list EvalContainer.report) :
  match EvalContainer.select None 0 reports with
  | None => reports = []
  | Some (m, k) =>
      ∃ r, reports !! k = Some r
           ∧ m = EvalContainer.mean_reward r
           ∧ (∀ j r', reports !! j = Some r' →
                (EvalContainer.mean_reward r' <= m)%Q)
           ∧ (∀ j r', (k < j)%nat → reports !! j = Some r' →
                (EvalContainer.mean_reward r' < m)%Q)
  end.
Proof.
  destruct reports as [|r rs]; [done|]. cbn [EvalContainer.select].
  destruct (select_from rs 1 0 (EvalContainer.mean_reward r))
    as (m & k & -> & [(-> & -> & Hlt)|(j & r1 & -> & Hj & -> & Hle & Hmax & Hlast)]).
  - exists r. repeat split; try done.
    + intros [|j] r' Hj; simplify_eq/=; [lra|]. apply Hlt in Hj. lra.
    + intros [|j] r' Hlt' Hj; [lia|]. simpl in Hj. by eapply Hlt.
  - exists r1. repeat split; try done.
    + intros [|j'] r' Hj'; simplify_eq/=; [lra|]. by eapply Hmax.
    + intros [|j'] r' Hlt' Hj'; [lia|]. simpl in Hj'.
      eapply Hlast; [|done]. lia.
Qed.

End EvaluationRun.

(** ** Training mode along a run *)
Section TrainingRun.

Import CountsRewards.

(** One call of [update_buffers] on the lists it returns: the returned
    rewards and infos go in pairs, one pair for each slot of the batch
    with a true terminal flag and a non-empty info; and the returned
    infos are entries of [infos], in the order of [infos], none of them
    empty. *)
Theorem update_buffers_returns (self : t) (c : step) :
  wf self → length (rewards c) = nb_env self →
  ∃ (terminal_rewards : list Z) (terminal_infos : list Info),
    (update_buffers self c).2 = Returned (terminal_rewards, terminal_infos)
    ∧ length terminal_rewards = length terminal_infos
    ∧ length terminal_rewards = rank (nb_env self) c
    ∧ (length terminal_rewards ≤ nb_env self)%nat
    ∧ terminal_infos `sublist_of` infos c
    ∧ Forall (λ info, truthy info = true) terminal_infos.
Proof.
  intros Hwf Hlen. pose proof (buffer_length self Hwf) as Hb.
  rewrite update_buffers_full by done.
  set (buf := zip_with Z.add (buffer self) (rewards c)).
  assert (length buf = nb_env self) as Hlb
    by (unfold buf; rewrite length_zip_with; lia).
  destruct (scan_outputs buf (terminals c) (infos c)) as (_ & Hl & Hle & Hs & Hf).
  destruct (scan_rewards_rank buf c) as [Hr _].
  exists (scan buf (terminals c) (infos c)).2.1, (scan buf (terminals c) (infos c)).2.2.
  simpl. split; [by destruct (scan _ _ _) as [? [? ?]]|].
  repeat split; try done; congruence || lia.
Qed.

Lemma update_buffers_returns_witness :
  ∃ (terminal_rewards : list Z) (terminal_infos : list Info),
    (update_buffers (init 2 0%Q)
       (mkStep [4; 5] [true; true] [{[ "score"%string := 4 ]}; ∅])).2
    = Returned (terminal_rewards, terminal_infos)
    ∧ length terminal_rewards = length terminal_infos
    ∧ length terminal_rewards
      = rank (nb_env (init 2 0%Q))
          (mkStep [4; 5] [true; true] [{[ "score"%string := 4 ]}; ∅])
    ∧ (length terminal_rewards ≤ nb_env (init 2 0%Q))%nat
    ∧ terminal_infos `sublist_of` [{[ "score"%string := 4 ]}; ∅]
    ∧ Forall (λ info, truthy info = true) terminal_infos.
Proof.
  apply (update_buffers_returns (init 2 0%Q)
           (mkStep [4; 5] [true; true] [{[ "score"%string := 4 ]}; ∅])).
  - intros b Hb. discriminate Hb.
  - reflexivity.
Defined.

(** The returned rewards are, in slot order, the values of the slots
    that complete. *)
Theorem terminal_rewards_in_slot_order (self : t) (c : step) :
  wf self → length (rewards c) = nb_env self →
  ∃ terminal_infos : list Info,
    (update_buffers self c).2
    = Returned (omap (λ i, slot_emission i self c) (seq 0 (nb_env self)),
                terminal_infos).
Proof. apply terminal_rewards_by_slot. Qed.

Lemma terminal_rewards_in_slot_order_witness :
  ∃ terminal_infos : list Info,
    (update_buffers (init 3 0%Q)
       (mkStep [4; 5; 6] [true; false; true]
          [{[ "score"%string := 4 ]}; ∅; {[ "score"%string := 6 ]}])).2
    = Returned
        (omap (λ i, slot_emission i (init 3 0%Q)
                      (mkStep [4; 5; 6] [true; false; true]
                         [{[ "score"%string := 4 ]}; ∅; {[ "score"%string := 6 ]}]))
           (seq 0 (nb_env (init 3 0%Q))),
         terminal_infos).
Proof.
  apply (terminal_rewards_in_slot_order (init 3 0%Q)
           (mkStep [4; 5; 6] [true; false; true]
              [{[ "score"%string := 4 ]}; ∅; {[ "score"%string := 6 ]}])).
  - intros b Hb. discriminate Hb.
  - reflexivity.
Defined.

Lemma training_updates_shape (calls : list step) (self : t) :
  wf self → Forall (λ c, length (rewards c) = nb_env self) calls →
  wf (updates self calls)
  ∧ nb_env (updates self calls) = nb_env self
  ∧ _start_time (updates self calls) = _start_time self
  ∧ _local_step_count (updates self calls)
    = _local_step_count self + Z.of_nat (nb_env self) * Z.of_nat (length calls).
Proof.
  intros Hwf Hcalls. revert self Hwf Hcalls.
  induction calls as [|c calls IH]; intros self Hwf Hcalls.
  { repeat split; try done. simpl. lia. }
  apply Forall_cons in Hcalls as [Hc Hcalls].
  change (updates self (c :: calls)) with (updates (update_buffers self c).1 calls).
  destruct (update_buffers_wf self c Hwf Hc) as [Hwf1 Hn1].
  destruct (IH (update_buffers self c).1) as (Hwf' & Hn & Hst & Hcount);
    [done|by rewrite Hn1|].
  split; [done|]. split; [congruence|].
  rewrite Hst, Hcount, Hn1. rewrite update_buffers_full by done. simpl.
  split; [done|]. lia.
Qed.

(** The step counter counts environment steps: after any number of calls
    of [update_buffers] with one reward per environment, on a new
    object, [local_step_count] is the number of calls times [nb_env]. *)
Theorem local_step_count_counts_steps (n : nat) (clock : Q) (calls : list step) :
  Forall (λ c, length (rewards c) = n) calls →
  _local_step_count (updates (init n clock) calls)
  = Z.of_nat n * Z.of_nat (length calls).
Proof.
  intros Hcalls.
  destruct (training_updates_shape calls (init n clock)) as (_ & _ & _ & ->);
    [by intros b|done|]. simpl. lia.
Qed.

Lemma local_step_count_counts_steps_witness :
  _local_step_count
    (updates (init 2 0%Q)
       [mkStep [1; 4] [false; false] [∅; ∅];
        mkStep [2; 5] [true; false] [{[ "score"%string := 3 ]}; ∅];
        mkStep [7; 6] [false] []])
  = Z.of_nat 2 * Z.of_nat 3.
Proof.
  apply (local_step_count_counts_steps 2 0%Q
           [mkStep [1; 4] [false; false] [∅; ∅];
            mkStep [2; 5] [true; false] [{[ "score"%string := 3 ]}; ∅];
            mkStep [7; 6] [false] []]).
  repeat constructor.
Defined.

End TrainingRun.

(** ** Training mode along a run, on the float32 buffer *)
Section TrainingRun32.

Import CountsRewards32.








End TrainingRun32.

(** ** Summaries, the progress log and the device *)
Section Reporting.

Lemma ticks_quiet (calls : list (Q * Z)) (self : WritesSummaries.t) :
  Forall (λ call, (fst call - WritesSummaries._prev_summary_time self
                   <= WritesSummaries.summary_frequency self)%Q) calls →
  WritesSummaries.ticks self calls = self.
Proof.
  induction 1 as [|call calls Hc Hcalls IH]; [done|].
  change (WritesSummaries.ticks self (call :: calls))
    with (WritesSummaries.ticks
            (WritesSummaries.write_summaries self (fst call) (snd call)) calls).
  unfold WritesSummaries.write_summaries at 1.
  apply Qle_bool_iff in Hc. rewrite Hc. simpl. exact IH.
Qed.

(** The summaries are rate-limited by the clock: calls whose clock
    values lie within [summary_frequency] of one another write at most
    one summary between them, whatever the state they start on. *)
Theorem summaries_are_rate_limited (calls : list (Q * Z)) (self : WritesSummaries.t) :
  Forall (λ a, Forall (λ b, (fst a - fst b
                             <= WritesSummaries.summary_frequency self)%Q) calls)
    calls →
  (length (WritesSummaries.written (WritesSummaries.ticks self calls))
   ≤ S (length (WritesSummaries.written self)))%nat.
Proof.
  revert self. induction calls as [|call calls IH]; intros self Hclose.
  { simpl. lia. }
  change (WritesSummaries.ticks self (call :: calls))
    with (WritesSummaries.ticks
            (WritesSummaries.write_summaries self (fst call) (snd call)) calls).
  apply Forall_cons in Hclose as [Hcall Hclose].
  unfold WritesSummaries.write_summaries at 1.
  destruct (Qle_bool _ _); simpl.
  - apply IH. eapply Forall_impl; [exact Hclose|]. simpl. intros a Ha.
    by apply Forall_cons in Ha as [_ Ha].
  - rewrite ticks_quiet; simpl; [rewrite length_app; simpl; lia|].
    eapply Forall_impl; [exact Hclose|]. simpl. intros a Ha.
    by apply Forall_cons in Ha as [Ha _].
Qed.

Lemma summaries_are_rate_limited_witness :
  (length (WritesSummaries.written
             (WritesSummaries.ticks
                {| WritesSummaries._prev_summary_time := 0%Q;
                   WritesSummaries.summary_frequency := 10%Q;
                   WritesSummaries.written := [] |}
                [(100%Q, 1%Z); (105%Q, 2%Z); (110%Q, 3%Z)]))
   ≤ S (length (WritesSummaries.written
                  {| WritesSummaries._prev_summary_time := 0%Q;
                     WritesSummaries.summary_frequency := 10%Q;
                     WritesSummaries.written := [] |})))%nat.
Proof.
  apply (summaries_are_rate_limited [(100%Q, 1); (105%Q, 2); (110%Q, 3)]
           {| WritesSummaries._prev_summary_time := 0%Q;
              WritesSummaries.summary_frequency := 10%Q;
              WritesSummaries.written := [] |}).
  repeat constructor; simpl; lra.
Defined.

(** The edge the progress log has: with rewards to report at a clock
    value equal to the start time, the division by the elapsed time
    raises [ZeroDivisionError], with or without a rank, and nothing is
    logged. *)
Theorem report_at_start_time_raises
    (self : LogsRewards.t) (now : Q) (terminal_rewards : list Z)
    (terminal_infos : list Info) (global_step_count : Z)
    (local_step_count : option Z) (rank : option Z) (initial_step_count : Z) :
  terminal_rewards ≠ [] →
  (now == CountsRewards._start_time (LogsRewards.counts self))%Q →
  LogsRewards.log_episode_results self now terminal_rewards terminal_infos
    global_step_count local_step_count rank initial_step_count
  = (self, Raised ZeroDivisionError).
Proof.
  intros Hne Hnow. destruct terminal_rewards as [|r rs]; [done|].
  unfold LogsRewards.log_episode_results.
  assert (∀ a, truediv a (now - CountsRewards._start_time (LogsRewards.counts self))
               = Raised ZeroDivisionError) as Hdiv.
  { intros a. unfold truediv.
    destruct (Qeq_bool _ 0) eqn:E; [done|].
    apply Qeq_bool_neq in E. exfalso. apply E. lra. }
  destruct rank; by rewrite Hdiv.
Qed.

Lemma report_at_start_time_raises_witness :
  LogsRewards.log_episode_results
    {| LogsRewards.counts := CountsRewards.init 1 5%Q; LogsRewards.logger := [] |}
    5%Q [1; 2] [] 100 None (Some 3) 0
  = ({| LogsRewards.counts := CountsRewards.init 1 5%Q; LogsRewards.logger := [] |},
     Raised ZeroDivisionError).
Proof.
  apply (report_at_start_time_raises
           {| LogsRewards.counts := CountsRewards.init 1 5%Q;
              LogsRewards.logger := [] |}
           5%Q [1; 2] [] 100 None (Some 3) 0).
  - discriminate.
  - reflexivity.
Defined.

(** Along any sequence of calls of [write_reward_summaries], the scalars
    written are the means of the reward lists that are not empty, in
    order, each under [summary_name] at the step count of its call; the
    logger is not touched; and every call returns the list it was
    given. *)
Theorem reward_summaries_are_the_means
    (self : LogsAndSummarizesRewards.t) (calls : list (list Z * Z)) :
  LogsAndSummarizesRewards.summary_writer
    (LogsAndSummarizesRewards.writes self calls)
  = LogsAndSummarizesRewards.summary_writer self
    ++ omap (λ call : list Z * Z,
               match fst call with
               | [] => None
               | _ :: _ =>
                   Some (LogsAndSummarizesRewards.summary_name,
                         mean (fst call), snd call)
               end) calls
  ∧ LogsAndSummarizesRewards.logs (LogsAndSummarizesRewards.writes self calls)
    = LogsAndSummarizesRewards.logs self
  ∧ ∀ (s : LogsAndSummarizesRewards.t) (terminal_rewards : list Z) (step_count : Z),
      (LogsAndSummarizesRewards.write_reward_summaries s terminal_rewards
         step_count).2 = terminal_rewards.
Proof.
  split; [|split].
  - revert self. induction calls as [|[trs sc] calls IH]; intros self.
    { simpl. by rewrite app_nil_r. }
    change (LogsAndSummarizesRewards.writes self ((trs, sc) :: calls))
      with (LogsAndSummarizesRewards.writes
              (LogsAndSummarizesRewards.write_reward_summaries self trs sc).1 calls).
    rewrite IH. destruct trs as [|r rs]; csimpl; [done|].
    by rewrite <- app_assoc.
  - revert self. induction calls as [|[trs sc] calls IH]; intros self; [done|].
    change (LogsAndSummarizesRewards.writes self ((trs, sc) :: calls))
      with (LogsAndSummarizesRewards.writes
              (LogsAndSummarizesRewards.write_reward_summaries self trs sc).1 calls).
    rewrite IH. by destruct trs.
  - intros s trs sc. by destruct trs.
Qed.

(** *** What a summary hands to the writer *)

Lemma metric_calls_steps (step_count : Z) (entry : string * WritesSummaries.metric) :
  Forall (λ c, WritesSummaries.step_of c = step_count)
    (WritesSummaries.metric_calls step_count entry).
Proof.
  destruct entry as [m_name m]. unfold WritesSummaries.metric_calls.
  destruct (_ <=? _)%nat, (_ =? _)%nat; repeat constructor.
Qed.

Lemma param_calls_steps (step_count : Z) (entry : string * WritesSummaries.param) :
  Forall (λ c, WritesSummaries.step_of c = step_count)
    (WritesSummaries.param_calls step_count entry).
Proof.
  destruct entry as [p_name p]. unfold WritesSummaries.param_calls.
  destruct (WritesSummaries.grad p); repeat constructor.
Qed.

Lemma metric_calls_dropped (step_count : Z) (m_name : string)
    (m : WritesSummaries.metric) :
  WritesSummaries.ndim m = 2%nat ∨ (3 < WritesSummaries.ndim m)%nat →
  WritesSummaries.metric_calls step_count (m_name, m) = [].
Proof.
  intros H. unfold WritesSummaries.metric_calls.
  destruct (Nat.leb_spec (WritesSummaries.ndim m) 1); [lia|].
  destruct (Nat.eqb_spec (WritesSummaries.ndim m) 3); [lia|]. done.
Qed.

(** The writer calls of a summary: the first is the total loss; every
    call is made at [step_count]; and a metric whose shape has two
    dimensions, or more than three, is passed over without a call: the
    calls are those made without it. *)
Theorem summary_calls_skip_other_shapes
    (total_loss : Q) (loss_dict : list (string * Q))
    (metrics1 metrics2 : list (string * WritesSummaries.metric))
    (m_name : string) (m : WritesSummaries.metric)
    (named_parameters : list (string * WritesSummaries.param)) (step_count : Z) :
  WritesSummaries.ndim m = 2%nat ∨ (3 < WritesSummaries.ndim m)%nat →
  WritesSummaries.summary_calls total_loss loss_dict
    (metrics1 ++ (m_name, m) :: metrics2) named_parameters step_count
  = WritesSummaries.summary_calls total_loss loss_dict
      (metrics1 ++ metrics2) named_parameters step_count
  ∧ head (WritesSummaries.summary_calls total_loss loss_dict
            (metrics1 ++ metrics2) named_parameters step_count)
    = Some (WritesSummaries.add_scalar "macro_loss/total_loss" total_loss step_count)
  ∧ Forall (λ c, WritesSummaries.step_of c = step_count)
      (WritesSummaries.summary_calls total_loss loss_dict
         (metrics1 ++ metrics2) named_parameters step_count).
Proof.
  intros Hm. split; [|split; [done|]].
  - unfold WritesSummaries.summary_calls. do 3 f_equal.
    rewrite !fmap_app, fmap_cons, !join_app. f_equal.
    by rewrite metric_calls_dropped.
  - unfold WritesSummaries.summary_calls. constructor; [done|].
    rewrite !Forall_app. repeat split.
    + apply Forall_fmap, Forall_true. by intros [l_name loss].
    + apply Forall_join, Forall_fmap, Forall_true. intros e.
      apply metric_calls_steps.
    + apply Forall_join, Forall_fmap, Forall_true. intros e.
      apply param_calls_steps.
Qed.

Lemma summary_calls_skip_other_shapes_witness :
  WritesSummaries.summary_calls 1%Q [("policy"%string, 2%Q)]
    ([] ++ ("attention"%string, WritesSummaries.mkMetric 2 0%Q) :: [])
    [("conv.weight"%string, WritesSummaries.mkParam 3%Q None)] 7
  = WritesSummaries.summary_calls 1%Q [("policy"%string, 2%Q)]
      ([] ++ []) [("conv.weight"%string, WritesSummaries.mkParam 3%Q None)] 7
  ∧ head (WritesSummaries.summary_calls 1%Q [("policy"%string, 2%Q)]
            ([] ++ []) [("conv.weight"%string, WritesSummaries.mkParam 3%Q None)] 7)
    = Some (WritesSummaries.add_scalar "macro_loss/total_loss" 1%Q 7)
  ∧ Forall (λ c, WritesSummaries.step_of c = 7)
      (WritesSummaries.summary_calls 1%Q [("policy"%string, 2%Q)]
         ([] ++ []) [("conv.weight"%string, WritesSummaries.mkParam 3%Q None)] 7).
Proof.
  apply (summary_calls_skip_other_shapes 1%Q [("policy"%string, 2%Q)] [] []
           "attention"%string (WritesSummaries.mkMetric 2 0%Q)
           [("conv.weight"%string, WritesSummaries.mkParam 3%Q None)] 7).
  left. reflexivity.
Defined.

(** The tag of a parameter: [replace('.', '/')] leaves no dot in the
    name and keeps its length; it leaves a name without dots as it is,
    so that doing it twice is doing it once. *)
Theorem replace_dots_leaves_no_dot (s : string) :
  WritesSummaries.has_dot (WritesSummaries.replace_dots s) = false
  ∧ String.length (WritesSummaries.replace_dots s) = String.length s
  ∧ (WritesSummaries.has_dot s = false → WritesSummaries.replace_dots s = s)
  ∧ WritesSummaries.replace_dots (WritesSummaries.replace_dots s)
    = WritesSummaries.replace_dots s.
Proof.
  assert (∀ s, WritesSummaries.has_dot (WritesSummaries.replace_dots s) = false)
    as Hno.
  { clear s. induction s as [|a s IH]; [done|]. simpl. rewrite IH.
    destruct (Ascii.eqb a "."%char) eqn:E; [done|]. by rewrite E. }
  assert (∀ s, WritesSummaries.has_dot s = false →
               WritesSummaries.replace_dots s = s) as Hid.
  { clear s. induction s as [|a s IH]; [done|]. simpl.
    destruct (Ascii.eqb a "."%char); [done|]. simpl. intros H. by rewrite IH. }
  split; [apply Hno|]. split; [|split; [apply Hid|apply Hid, Hno]].
  induction s as [|a s IH]; [done|]. simpl. by rewrite IH.
Qed.

(** *** The device of an [EvalContainer] *)

(** The device is the CPU exactly when CUDA is not available or the GPU
    id is negative; otherwise its name tells the GPU id: different ids
    give different names. *)
Theorem device_from_gpu_id (cuda_is_available : bool) (gpu_id : Z) :
  (EvalContainer._device_from_gpu_id cuda_is_available gpu_id = "cpu"
   ↔ cuda_is_available = false ∨ gpu_id < 0)
  ∧ ∀ gpu_id' : Z,
      0 ≤ gpu_id → 0 ≤ gpu_id' → gpu_id ≠ gpu_id' →
      EvalContainer._device_from_gpu_id true gpu_id
      ≠ EvalContainer._device_from_gpu_id true gpu_id'.
Proof.
  unfold EvalContainer._device_from_gpu_id. split.
  - destruct cuda_is_available; simpl; [|by split; [left|]].
    destruct (Z.leb_spec 0 gpu_id) as [H|H].
    + split; [done|]. intros [?|?]; [done|lia].
    + split; [by right|done].
  - intros gpu_id' H H' Hne. simpl.
    rewrite (proj2 (Z.leb_le _ _) H), (proj2 (Z.leb_le _ _) H').
    intros Heq. apply Hne. apply (inj pretty). by simplify_eq/=.
Qed.

Lemma device_from_gpu_id_witness :
  0 ≤ 0 ∧ 0 ≤ 1
  ∧ EvalContainer._device_from_gpu_id true 0
    ≠ EvalContainer._device_from_gpu_id true 1.
Proof.
  split; [lia|]. split; [lia|].
  apply (proj2 (device_from_gpu_id true 0) 1); lia.
Defined.

End Reporting.
